(** * cellaserv3: the broker's reply routing, dispatch loop and connection
    teardown, and the client's request, reply and publish handling.

    Shallow embedding of [broker/broker.go], [broker/reply.go] and the
    client package.  Every Go function becomes a Rocq function that takes
    the state it reads and returns the state it leaves together with the
    list of effects it performed, in program order. *)

From Stdlib Require Import ZArith Strings.Byte Ascii String.
From stdpp Require Import gmap strings list fin_maps.

Abbreviation bytes := (list byte).

(** [proto.Unmarshal] and [proto.Marshal] of the protobuf library, one
    instance per message type (the library's [proto.Message] interface). *)
Class Unmarshal (A : Type) := unmarshal : bytes → option A.
Class Marshal (A : Type) := marshal : A → option bytes.

(** Go's [regexp] package: [regexp.Compile] and the methods [Match] (on the
    bytes of a string) and [String] of a compiled expression. *)
Class RegexpLib := {
  Regexp : Type;
  Regexp_Compile : string → option Regexp;
  Regexp_Match : Regexp → string → bool;
  Regexp_String : Regexp → string }.

(** * The broker *)
Module Broker.

(** A [net.Conn] is an interface value compared by identity. *)
Abbreviation Conn := nat.
(** A [*service]: services are shared through pointers. *)
Abbreviation SvcPtr := nat.

(** ** Wire messages, as the broker package reads them *)

Record Message := { Type_ : Z; Content : bytes }.

(** Modelled from the spec: the values of the [Message_*] enumeration of the
    protobuf bindings, section 6 of the specification. *)
Definition Message_Register : Z := 1.
Definition Message_Request : Z := 2.
Definition Message_Reply : Z := 3.
Definition Message_Subscribe : Z := 4.
Definition Message_Publish : Z := 5.

Inductive ErrorType := Timeout | NoSuchService | Custom.
Record ReplyError := { ErrType : ErrorType; What : string }.

Record Register := { RegName : string; RegIdentification : string }.
Record Request := {
  ReqId : Z; ServiceName : string; ServiceIdentification : string;
  Method : string; ReqData : bytes }.
Record Reply := { Id : Z; Data : bytes; Error : option ReplyError }.
Record Subscribe := { SubEvent : string }.
Record Publish := { Event : string; PubData : bytes }.

(** ** Broker state *)

(** Modelled from the spec: the [service] struct is declared in another
    file of the package; these are the fields [handle] reads ([Name],
    [Identification], [Spies]) and the owning connection of section 3. *)
Record service := {
  Name : string; Identification : string; SvcConn : Conn; Spies : list Conn }.

Global Instance service_inhabited : Inhabited service :=
  populate {| Name := ""; Identification := ""; SvcConn := 0; Spies := [] |}.

(** Modelled from the spec: the [requestTracking] struct is declared in
    another file of the package.  [sender], [timer], [spies], [start] and
    [latencyObserver] are the fields [handleReply] uses; [clientId] is the
    original client id that section 4.4 stores in the tracker. *)
Record requestTracking := {
  sender : Conn; timer : nat; spies : list Conn; start : Z;
  latencyObserver : nat; clientId : Z }.

Record Broker := {
  connList : list Conn;
  connNameMap : gmap Conn string;
  connSpies : gmap Conn (list SvcPtr);
  Services : gmap string (gmap string SvcPtr);
  servicesConn : gmap Conn (list SvcPtr);
  reqIds : gmap Z requestTracking;
  subscriberMap : gmap string (list Conn);
  subscriberMatchMap : gmap string (list Conn);
  (* the service objects the [*service] pointers above refer to; every
     pointer stored in a table is allocated *)
  svcHeap : gmap SvcPtr service }.

Definition New : Broker :=
  {| connList := []; connNameMap := ∅; connSpies := ∅; Services := ∅;
     servicesConn := ∅; reqIds := ∅; subscriberMap := ∅;
     subscriberMatchMap := ∅; svcHeap := ∅ |}.

Definition set_connList (f : list Conn → list Conn) (b : Broker) : Broker :=
  {| connList := f (connList b); connNameMap := connNameMap b;
     connSpies := connSpies b; Services := Services b;
     servicesConn := servicesConn b; reqIds := reqIds b;
     subscriberMap := subscriberMap b;
     subscriberMatchMap := subscriberMatchMap b; svcHeap := svcHeap b |}.

Definition set_connNameMap (f : gmap Conn string → gmap Conn string)
    (b : Broker) : Broker :=
  {| connList := connList b; connNameMap := f (connNameMap b);
     connSpies := connSpies b; Services := Services b;
     servicesConn := servicesConn b; reqIds := reqIds b;
     subscriberMap := subscriberMap b;
     subscriberMatchMap := subscriberMatchMap b; svcHeap := svcHeap b |}.

Definition set_connSpies
    (f : gmap Conn (list SvcPtr) → gmap Conn (list SvcPtr))
    (b : Broker) : Broker :=
  {| connList := connList b; connNameMap := connNameMap b;
     connSpies := f (connSpies b); Services := Services b;
     servicesConn := servicesConn b; reqIds := reqIds b;
     subscriberMap := subscriberMap b;
     subscriberMatchMap := subscriberMatchMap b; svcHeap := svcHeap b |}.

Definition set_Services
    (f : gmap string (gmap string SvcPtr) → gmap string (gmap string SvcPtr))
    (b : Broker) : Broker :=
  {| connList := connList b; connNameMap := connNameMap b;
     connSpies := connSpies b; Services := f (Services b);
     servicesConn := servicesConn b; reqIds := reqIds b;
     subscriberMap := subscriberMap b;
     subscriberMatchMap := subscriberMatchMap b; svcHeap := svcHeap b |}.

Definition set_servicesConn
    (f : gmap Conn (list SvcPtr) → gmap Conn (list SvcPtr))
    (b : Broker) : Broker :=
  {| connList := connList b; connNameMap := connNameMap b;
     connSpies := connSpies b; Services := Services b;
     servicesConn := f (servicesConn b); reqIds := reqIds b;
     subscriberMap := subscriberMap b;
     subscriberMatchMap := subscriberMatchMap b; svcHeap := svcHeap b |}.

Definition set_reqIds
    (f : gmap Z requestTracking → gmap Z requestTracking)
    (b : Broker) : Broker :=
  {| connList := connList b; connNameMap := connNameMap b;
     connSpies := connSpies b; Services := Services b;
     servicesConn := servicesConn b; reqIds := f (reqIds b);
     subscriberMap := subscriberMap b;
     subscriberMatchMap := subscriberMatchMap b; svcHeap := svcHeap b |}.

Definition set_subscriberMap
    (f : gmap string (list Conn) → gmap string (list Conn))
    (b : Broker) : Broker :=
  {| connList := connList b; connNameMap := connNameMap b;
     connSpies := connSpies b; Services := Services b;
     servicesConn := servicesConn b; reqIds := reqIds b;
     subscriberMap := f (subscriberMap b);
     subscriberMatchMap := subscriberMatchMap b; svcHeap := svcHeap b |}.

Definition set_subscriberMatchMap
    (f : gmap string (list Conn) → gmap string (list Conn))
    (b : Broker) : Broker :=
  {| connList := connList b; connNameMap := connNameMap b;
     connSpies := connSpies b; Services := Services b;
     servicesConn := servicesConn b; reqIds := reqIds b;
     subscriberMap := subscriberMap b;
     subscriberMatchMap := f (subscriberMatchMap b); svcHeap := svcHeap b |}.

Definition set_svcHeap
    (f : gmap SvcPtr service → gmap SvcPtr service)
    (b : Broker) : Broker :=
  {| connList := connList b; connNameMap := connNameMap b;
     connSpies := connSpies b; Services := Services b;
     servicesConn := servicesConn b; reqIds := reqIds b;
     subscriberMap := subscriberMap b;
     subscriberMatchMap := subscriberMatchMap b; svcHeap := f (svcHeap b) |}.

(** ** Effects *)

Inductive LogLevel := Debug | Info | Warning | Error_.

(** The JSON payloads of the broker's own publications, before
    [json.Marshal]. *)
Inductive Payload :=
  | connToJSON (c : Conn)
  | serviceJSON (name identification : string)
  | logSubscriberJSON (event : string) (c : Conn).

Definition JSONStruct (s : service) : Payload :=
  serviceJSON (Name s) (Identification s).

Definition logNewConnection : string := "log.new_connection".
Definition logCloseConnection : string := "log.close_connection".
Definition logNewService : string := "log.new_service".
Definition logLostService : string := "log.lost_service".
Definition logNewSubscriber : string := "log.new_subscriber".
Definition logLostSubscriber : string := "log.lost_subscriber".

Inductive Effect :=
  | EvLog (lvl : LogLevel) (what : string)        (* b.logger.<lvl>(...) *)
  | EvSendRaw (c : Conn) (raw : bytes)            (* common.SendRawMessage *)
  | EvPublish (event : string) (payload : Payload) (* b.cellaservPublish *)
  | EvClose (c : Conn)                            (* c.Close() *)
  | EvTimerStop (t : nat)                         (* timer.Stop() *)
  | EvObserve (observer : nat) (since : Z).       (* latencyObserver.Observe *)

Global Instance LogLevel_eq_dec : EqDecision LogLevel.
Proof. solve_decision. Defined.
Global Instance Payload_eq_dec : EqDecision Payload.
Proof. solve_decision. Defined.
Global Instance byte_eq_dec : EqDecision byte := Byte.byte_eq_dec.
Global Instance Effect_eq_dec : EqDecision Effect.
Proof. solve_decision. Defined.

(** The raw frames written to connection [c], in order. *)
Definition sentTo (c : Conn) (tr : list Effect) : list bytes :=
  omap (λ e, match e with
             | EvSendRaw c' raw => if decide (c' = c) then Some raw else None
             | _ => None
             end) tr.

(** Every raw frame written, with its destination, in order. *)
Definition sends (tr : list Effect) : list (Conn * bytes) :=
  omap (λ e, match e with EvSendRaw c raw => Some (c, raw) | _ => None end) tr.

(** The payloads published under [event], in order. *)
Definition published (event : string) (tr : list Effect) : list Payload :=
  omap (λ e, match e with
             | EvPublish ev payload =>
                 if decide (ev = event) then Some payload else None
             | _ => None
             end) tr.

(** The connections closed, in order. *)
Definition closedConns (tr : list Effect) : list Conn :=
  omap (λ e, match e with EvClose c => Some c | _ => None end) tr.

(** ** reply.go *)

Definition handleReply (b : Broker) (conn : Conn) (msgRaw : bytes)
    (rep : Reply) : Broker * list Effect :=
  let id := Id rep in
  match reqIds b !! id with
  | None =>
      (b, [EvLog Info "[Reply] reply"; EvLog Error_ "[Reply] Unknown ID"])
  | Some reqTrack =>
      (set_reqIds (delete id) b,
       [EvLog Info "[Reply] reply";
        (* Track reply latency *)
        EvObserve (latencyObserver reqTrack) (start reqTrack)]
       (* Forward reply to spies *)
       ++ map (λ spy, EvSendRaw spy msgRaw) (spies reqTrack)
       ++ [EvTimerStop (timer reqTrack);
           EvLog Debug "[Reply] Forwarding";
           EvSendRaw (sender reqTrack) msgRaw])
  end.

(** ** broker.go: message dispatch *)

Inductive error :=
  | CouldNotUnmarshal (what : string)   (* "Could not unmarshal <what>: ..." *)
  | UnknownMessageType (t : Z).         (* "Unknown message type: %d" *)

(** [handleRegister], [handleRequest], [handleSubscribe] and [handlePublish]
    of the broker live in other files of the package; [handleMessage] takes
    them as parameters. *)
Record Handlers := {
  onRegister : Conn → Register → Broker → Broker * list Effect;
  onRequest : Conn → bytes → Request → Broker → Broker * list Effect;
  onSubscribe : Conn → Subscribe → Broker → Broker * list Effect;
  onPublish : Conn → bytes → Publish → Broker → Broker * list Effect }.

Definition logUnmarshalError (msg : bytes) : list Effect :=
  [EvLog Error_ "[Broker] Bad message"].

(** A [*cellaserv.Message] may be nil, [None] here.  The generated getters
    return the zero value of the field on a nil receiver; the field read
    [msg.Type] dereferences the pointer. *)
Definition GetType (msg : option Message) : Z := from_option Type_ 0%Z msg.
Definition GetContent (msg : option Message) : bytes :=
  from_option Content [] msg.

(** How a call of [handleMessage] ends: it returns, leaving a broker, the
    effects it performed and its [error] result, or it panics on a nil
    pointer dereference. *)
Inductive Handled :=
  | Returns (b : Broker) (tr : list Effect) (e : option error)
  | NilPanic.

(** The broker a call leaves, [b] when it panicked in [b], and the error it
    returned. *)
Definition brokerAfter (b : Broker) (h : Handled) : Broker :=
  match h with Returns b' _ _ => b' | NilPanic => b end.
Definition errorOf (h : Handled) : option error :=
  match h with Returns _ _ e => e | NilPanic => None end.

Section Dispatch.
Context `{!Unmarshal Register, !Unmarshal Request, !Unmarshal Reply,
          !Unmarshal Subscribe, !Unmarshal Publish}.
Variable H : Handlers.

Definition handleMessage (conn : Conn) (msgBytes : bytes)
    (msg : option Message) (b : Broker) : Handled :=
  (* Parse and process message payload *)
  let msgContent := GetContent msg in
  let t := GetType msg in
  if decide (t = Message_Register) then
    match unmarshal (A := Register) msgContent with
    | None => Returns b (logUnmarshalError msgContent)
                (Some (CouldNotUnmarshal "register"))
    | Some register =>
        let '(b', tr) := onRegister H conn register b in Returns b' tr None
    end
  else if decide (t = Message_Request) then
    match unmarshal (A := Request) msgContent with
    | None => Returns b (logUnmarshalError msgContent)
                (Some (CouldNotUnmarshal "request"))
    | Some request =>
        let '(b', tr) := onRequest H conn msgBytes request b in
        Returns b' tr None
    end
  else if decide (t = Message_Reply) then
    match unmarshal (A := Reply) msgContent with
    | None => Returns b (logUnmarshalError msgContent)
                (Some (CouldNotUnmarshal "reply"))
    | Some reply =>
        let '(b', tr) := handleReply b conn msgBytes reply in
        Returns b' tr None
    end
  else if decide (t = Message_Subscribe) then
    match unmarshal (A := Subscribe) msgContent with
    | None => Returns b (logUnmarshalError msgContent)
                (Some (CouldNotUnmarshal "subscribe"))
    | Some sub =>
        let '(b', tr) := onSubscribe H conn sub b in Returns b' tr None
    end
  else if decide (t = Message_Publish) then
    match unmarshal (A := Publish) msgContent with
    | None => Returns b (logUnmarshalError msgContent)
                (Some (CouldNotUnmarshal "publish"))
    | Some pub =>
        let '(b', tr) := onPublish H conn msgBytes pub b in
        Returns b' tr None
    end
  else
    (* fmt.Errorf("Unknown message type: %d", msg.Type) *)
    match msg with
    | Some m => Returns b [] (Some (UnknownMessageType (Type_ m)))
    | None => NilPanic
    end.

(** One result of [common.RecvMessage]; [msg_] is the [*Message], nil when
    [None]. *)
Record Recv := {
  closed : bool; msgBytes_ : bytes; msg_ : option Message;
  err : option string }.


(** How far the loop of [handle] got. *)
Inductive LoopEnd :=
  | InRecv      (* the results are exhausted: blocked in [RecvMessage] *)
  | Broke       (* the loop reached its [break] *)
  | Crashed.    (* a panic left [handleMessage]; nothing recovers it *)

(** The [for] loop of [handle] over the results [RecvMessage] yields. *)
Fixpoint dispatchLoop (conn : Conn) (inputs : list Recv) (b : Broker)
    : Broker * list Effect * LoopEnd :=
  match inputs with
  | [] => (b, [], InRecv)
  | r :: rest =>
      let recvLog :=
        match err r with
        | Some _ => [EvLog Error_ "[Message] Receive"]
        | None => []
        end in
      if closed r then
        (b, recvLog ++ [EvLog Info "[Broker] Connection closed"], Broke)
      else
        match handleMessage conn (msgBytes_ r) (msg_ r) b with
        | NilPanic => (b, recvLog, Crashed)
        | Returns b1 tr1 e =>
            let handleLog :=
              match e with
              | Some _ => [EvLog Error_ "[Message] Handle"]
              | None => []
              end in
            let '(b2, tr2, end_) := dispatchLoop conn rest b1 in
            (b2, recvLog ++ tr1 ++ handleLog ++ tr2, end_)
        end
  end.

End Dispatch.

(** ** broker.go: teardown, the part of [handle] after the loop *)

(** [b.connList.Remove(connListElt)]: a connection is pushed once, by its
    own [handle], so its element is the first one holding it. *)
Fixpoint removeElt (conn : Conn) (l : list Conn) : list Conn :=
  match l with
  | [] => []
  | c :: l' => if decide (c = conn) then l' else c :: removeElt conn l'
  end.

(** [b.Services[name][identification]] *)
Definition serviceAt (S : gmap string (gmap string SvcPtr))
    (name identification : string) : option SvcPtr :=
  S !! name ≫= λ idents, idents !! identification.

(** [delete(b.Services[s.Name], s.Identification)]; deleting from the nil
    map of an absent name does nothing. *)
Definition deleteService (s : service)
    (S : gmap string (gmap string SvcPtr)) : gmap string (gmap string SvcPtr) :=
  alter (delete (Identification s)) (Name s) S.

(** The effects of one iteration of
    [for _, s := range b.servicesConn[conn]].  An error of [c.Close()] is
    logged and changes nothing else. *)
Definition lostService (s : service) : list Effect :=
  [EvLog Info "[Services] Remove"; EvPublish logLostService (JSONStruct s)]
  (* Close connections that spied this service *)
  ++ flat_map (λ c, [EvLog Debug "[Service] Close spy conn"; EvClose c])
              (Spies s).

Definition removeService (p : SvcPtr) (b : Broker) : Broker * list Effect :=
  let s := svcHeap b !!! p in
  (set_Services (deleteService s) b, lostService s).

Fixpoint removeServices (ps : list SvcPtr) (b : Broker)
    : Broker * list Effect :=
  match ps with
  | [] => (b, [])
  | p :: ps' =>
      let '(b1, tr1) := removeService p b in
      let '(b2, tr2) := removeServices ps' b1 in
      (b2, tr1 ++ tr2)
  end.

(** The inner loop of [removeConnFromMap], [for i, subConn := range subs].
    [subs] is evaluated once: [n] is its length and [arr] its backing array,
    which the slices stored in the map share.  [i] is the current index,
    [todo] the number of iterations left and [entry] the length of the slice
    the map holds under [key] ([None] once the key is deleted). *)
Fixpoint rangeSubs (conn : Conn) (key : string) (n i todo : nat)
    (arr : list Conn) (entry : option nat) (tr : list Effect)
    : list Conn * option nat * list Effect :=
  match todo with
  | 0 => (arr, entry, tr)
  | S todo' =>
      if decide (arr !! i = Some conn) then
        (* subs[i] = subs[len(subs)-1]; subMap[key] = subs[:len(subs)-1] *)
        let arr' := <[i := arr !!! (n - 1)]> arr in
        let tr' := tr ++ [EvPublish logLostSubscriber
                            (logSubscriberJSON key conn)] in
        if decide (n - 1 = 0) then (arr', None, tr')   (* delete; break *)
        else rangeSubs conn key n (S i) todo' arr' (Some (n - 1)) tr'
      else rangeSubs conn key n (S i) todo' arr entry tr
  end.

(** What the map holds under [key] after the inner loop, and the
    publications made. *)
Definition removeConnFromSubs (conn : Conn) (key : string)
    (subs : list Conn) : option (list Conn) * list Effect :=
  let n := length subs in
  let '(arr, entry, tr) := rangeSubs conn key n 0 n subs (Some n) [] in
  ((λ len, take len arr) <$> entry, tr).

(** [removeConnFromMap]: the iterations of [for key, subs := range subMap]
    touch disjoint keys; [map_to_list] fixes one of the orders Go may pick. *)
Definition removeConnFromMap (conn : Conn) (subMap : gmap string (list Conn))
    : gmap string (list Conn) * list Effect :=
  (map_imap (λ key subs, fst (removeConnFromSubs conn key subs)) subMap,
   flat_map (λ kv, snd (removeConnFromSubs conn kv.1 kv.2))
            (map_to_list subMap)).

(** Index of the first element of [l] equal to [conn], counting from [i]. *)
Fixpoint findConn (conn : Conn) (l : list Conn) (i : nat) : option nat :=
  match l with
  | [] => None
  | c :: l' => if decide (c = conn) then Some i else findConn conn l' (S i)
  end.

(** [srvc.Spies[i] = srvc.Spies[len-1]; srvc.Spies = srvc.Spies[:len-1];
    break] at the first [i] holding [conn]. *)
Definition removeSpy (conn : Conn) (s : service) : service :=
  match findConn conn (Spies s) 0 with
  | None => s
  | Some i =>
      let n := length (Spies s) in
      {| Name := Name s; Identification := Identification s;
         SvcConn := SvcConn s;
         Spies := take (n - 1) (<[i := Spies s !!! (n - 1)]> (Spies s)) |}
  end.

(** [for _, srvc := range b.connSpies[conn]]: each service is updated in
    place, through its pointer. *)
Definition unspy (conn : Conn) (ps : list SvcPtr)
    (heap : gmap SvcPtr service) : gmap SvcPtr service :=
  foldl (λ h p, alter (removeSpy conn) p h) heap ps.

Definition teardown (conn : Conn) (b : Broker) : Broker * list Effect :=
  let connJSON := connToJSON conn in
  (* Remove from list of handled connection *)
  let b := set_connList (removeElt conn) b in
  (* Clean connection name, if not given this is a noop *)
  let b := set_connNameMap (delete conn) b in
  (* Remove services registered by this connection *)
  let '(b, tr1) := removeServices (default [] (servicesConn b !! conn)) b in
  let b := set_servicesConn (delete conn) b in
  (* Remove subscribes from this connection *)
  let '(sm, tr2) := removeConnFromMap conn (subscriberMap b) in
  let b := set_subscriberMap (λ _, sm) b in
  let '(smm, tr3) := removeConnFromMap conn (subscriberMatchMap b) in
  let b := set_subscriberMatchMap (λ _, smm) b in
  (* Remove conn from the services it spied *)
  let b := set_svcHeap (unspy conn (default [] (connSpies b !! conn))) b in
  let b := set_connSpies (delete conn) b in
  (b, tr1 ++ tr2 ++ tr3 ++ [EvPublish logCloseConnection connJSON]).

Section Handle.
Context `{!Unmarshal Register, !Unmarshal Request, !Unmarshal Reply,
          !Unmarshal Subscribe, !Unmarshal Publish}.
Variable H : Handlers.

(** [handle]: it ends in [Broke] when the goroutine ran to its end, through
    the teardown that follows the loop. *)
Definition handle (conn : Conn) (inputs : list Recv) (b : Broker)
    : Broker * list Effect * LoopEnd :=
  let connJSON := connToJSON conn in
  let opened := [EvLog Info "[Broker] Connection opened";
                 EvPublish logNewConnection connJSON] in
  (* Append to list of handled connections *)
  let b := set_connList (λ l, l ++ [conn]) b in
  let '(b, tr, end_) := dispatchLoop H conn inputs b in
  match end_ with
  | Broke =>
      let '(b, tr') := teardown conn b in (b, opened ++ tr ++ tr', Broke)
  | _ => (b, opened ++ tr, end_)
  end.

End Handle.

(** ** Subscribe and publish handlers *)

(** Modelled from the spec: the regex metacharacters of section 4.6, taken
    to be the characters [regexp.QuoteMeta] escapes. *)
Definition isMeta (a : ascii) : bool :=
  bool_decide (a ∈ list_ascii_of_string "\.+*?()|[]{}^$").

(** Modelled from the spec: a literal event name has no regex
    metacharacter (section 4.6). *)
Definition isLiteral (s : string) : bool :=
  forallb (λ a, negb (isMeta a)) (list_ascii_of_string s).

Section PubSub.
Context `{!RegexpLib}.

(** Modelled from the spec: a pattern of the pattern table matches an event
    name when it compiles and the compiled expression matches it (sections
    3 and 4.7). *)
Definition matchPattern (pattern event : string) : bool :=
  match Regexp_Compile pattern with
  | Some r => Regexp_Match r event
  | None => false
  end.

(** Modelled from the spec: the broker's [handleSubscribe] lives in another
    file of the package; section 4.6: a literal event name (no regex
    metacharacters) goes to the exact-match table, any other specifier to
    the pattern table; duplicate entries are kept; [log.new_subscriber] is
    emitted. *)
Definition handleSubscribe (conn : Conn) (sub : Subscribe) (b : Broker)
    : Broker * list Effect :=
  let ev := SubEvent sub in
  let add := λ m : gmap string (list Conn),
    <[ev := default [] (m !! ev) ++ [conn]]> m in
  (if isLiteral ev then set_subscriberMap add b
   else set_subscriberMatchMap add b,
   [EvPublish logNewSubscriber (logSubscriberJSON ev conn)]).

(** Modelled from the spec: the entries of the pattern table whose pattern
    matches [event] (section 4.7). *)
Definition matchedSubscribers (event : string)
    (m : gmap string (list Conn)) : list Conn :=
  flat_map (λ kv, if matchPattern kv.1 event then kv.2 else [])
           (map_to_list m).

(** Modelled from the spec: the broker's [handlePublish] lives in another
    file of the package; section 4.7: the raw publish bytes are sent once per
    entry of the exact-match table under the event name and once per entry
    of every pattern whose compiled regex matches it. *)
Definition handlePublish (conn : Conn) (msgRaw : bytes) (pub : Publish)
    (b : Broker) : Broker * list Effect :=
  let exact := default [] (subscriberMap b !! Event pub) in
  let matched := matchedSubscribers (Event pub) (subscriberMatchMap b) in
  (b, map (λ c, EvSendRaw c msgRaw) (exact ++ matched)).

(** What the broker handles between a subscription and a publication:
    subscriptions and publications of any connection, and replies. *)
Inductive Traffic :=
  | TSubscribe (conn : Conn) (sub : Subscribe)
  | TPublish (conn : Conn) (msgRaw : bytes) (pub : Publish)
  | TReply (conn : Conn) (msgRaw : bytes) (rep : Reply).

Definition handleTraffic (t : Traffic) (b : Broker) : Broker * list Effect :=
  match t with
  | TSubscribe conn sub => handleSubscribe conn sub b
  | TPublish conn msgRaw pub => handlePublish conn msgRaw pub b
  | TReply conn msgRaw rep => handleReply b conn msgRaw rep
  end.

(** The messages of [ts] handled one after the other. *)
Fixpoint handleAll (ts : list Traffic) (b : Broker) : Broker * list Effect :=
  match ts with
  | [] => (b, [])
  | t :: ts' =>
      let '(b1, tr1) := handleTraffic t b in
      let '(b2, tr2) := handleAll ts' b1 in
      (b2, tr1 ++ tr2)
  end.

End PubSub.

(** ** What a frame carries *)


(** ** broker.go: the payload dump of [logUnmarshalError] *)

Definition hexDigit (n : N) : ascii :=
  default "0"%char
    (list_ascii_of_string "0123456789ABCDEF" !! N.to_nat n).

(** [fmt.Sprintf("0x%02X ", b)] *)
Definition hexByte (b : byte) : string :=
  let n := Byte.to_N b in
  String "0" (String "x"
    (String (hexDigit (n / 16)) (String (hexDigit (n mod 16)) " "))).

(** The string [dbg] that [logUnmarshalError] builds and logs:
    [for _, b := range msg { dbg = dbg + fmt.Sprintf("0x%02X ", b) }]. *)
Definition unmarshalErrorDump (msg : bytes) : string :=
  foldl (λ dbg b, dbg +:+ hexByte b) "" msg.

(** ** broker.go: the listener *)

(** What [b.mainListener.Accept()] returns: a connection, an error that
    implements [net.Error] (temporary or not), or any other error, with a
    nil connection. *)
Inductive acceptResult :=
  | Accepted (conn : Conn)
  | AcceptNetError (temporary : bool)
  | AcceptError.

Inductive ListenEffect :=
  | LsLog (lvl : LogLevel) (what : string)
  | LsSleep (milliseconds : nat)            (* time.Sleep *)
  | LsGoHandle (conn : option Conn).        (* go b.handle(conn) *)

(** The connections [handle] was started on, in order; [None] is a nil
    [net.Conn]. *)
Definition goHandles (tr : list ListenEffect) : list (option Conn) :=
  omap (λ e, match e with LsGoHandle c => Some c | _ => None end) tr.

(** The [for] loop of [listenAndServe] over the results [Accept] yields.
    The boolean tells whether the loop reached its [break]; with the results
    exhausted the goroutine is blocked in [Accept]. *)
Fixpoint acceptLoop (accepts : list acceptResult)
    : list ListenEffect * bool :=
  match accepts with
  | [] => ([], false)
  | a :: rest =>
      match a with
      | AcceptNetError true =>
          let '(tr, broke) := acceptLoop rest in
          (LsLog Warning "[Broker] Could not accept" :: LsSleep 10 :: tr,
           broke)
      | AcceptNetError false =>
          ([LsLog Error_ "[Broker] Connection unavailable"], true)
      | Accepted conn =>
          let '(tr, broke) := acceptLoop rest in
          (LsGoHandle (Some conn) :: tr, broke)
      | AcceptError =>
          let '(tr, broke) := acceptLoop rest in
          (LsGoHandle None :: tr, broke)
      end
  end.

(** [listenAndServe]: [listenErr] is the error of [net.Listen].  The result
    is [Some e] once the function returned [e], [None] while it is blocked
    in [Accept]. *)
Definition listenAndServe (listenErr : option string)
    (accepts : list acceptResult)
    : list ListenEffect * option (option string) :=
  match listenErr with
  | Some e => ([LsLog Error_ "[Broker] Could not listen"], Some (Some e))
  | None =>
      let '(tr, broke) := acceptLoop accepts in
      (LsLog Info "[Broker] Listening" :: tr,
       if broke then Some None else None)
  end.

(** ** reply.go: a run of replies *)

(** [handleReply] on each reply in turn, as the dispatch loops call it. *)
Fixpoint handleReplies (rs : list (Conn * bytes * Reply)) (b : Broker)
    : Broker * list Effect :=
  match rs with
  | [] => (b, [])
  | (conn, msgRaw, rep) :: rs' =>
      let '(b1, tr1) := handleReply b conn msgRaw rep in
      let '(b2, tr2) := handleReplies rs' b1 in
      (b2, tr1 ++ tr2)
  end.

(** The timers stopped, in order. *)
Definition stoppedTimers (tr : list Effect) : list nat :=
  omap (λ e, match e with EvTimerStop t => Some t | _ => None end) tr.

End Broker.

(** * The client

    The client's log calls have no effect on what follows and are left
    out. *)
Module Client.

Abbreviation Conn := nat.
(** A [chan *cellaserv.Reply]: channels are shared through references. *)
Abbreviation Chan := nat.

(** ** Wire messages, as the client package reads them: optional fields
    are pointers, read with [*p] or through the generated getters. *)

Record Message := { Type_ : option Z; Content : bytes }.
Record Request := {
  Id : option Z; ServiceName : option string;
  ServiceIdentification : option string; Method : option string;
  Data : bytes }.
Inductive Reply_Error_Type :=
  Reply_Error_Timeout | Reply_Error_NoSuchService | Reply_Error_Custom.
Record Reply_Error := {
  ErrType : option Reply_Error_Type; What : option string }.
Record Reply := {
  RepId : option Z; RepData : bytes; Error : option Reply_Error }.
Record Register := {
  RegName : option string; RegIdentification : option string }.
Record Subscribe := { SubEvent : option string }.
Record Publish := { Event : option string; PubData : bytes }.

Definition GetId (rep : Reply) : Z := default 0%Z (RepId rep).
Definition GetEvent (pub : Publish) : string := default "" (Event pub).
Definition GetData (pub : Publish) : bytes := PubData pub.

Definition Message_Register : Z := Broker.Message_Register.
Definition Message_Request : Z := Broker.Message_Request.
Definition Message_Reply : Z := Broker.Message_Reply.
Definition Message_Subscribe : Z := Broker.Message_Subscribe.
Definition Message_Publish : Z := Broker.Message_Publish.

(** ** Panics and errors *)

Inductive Panic :=
  | NilDereference                                (* [*p] with [p == nil] *)
  | CouldNotMarshalRequest
  | DuplicateRequestId (id : Z)
  | NoSuchService (id : Z) (name : string).

Inductive Result (A : Type) :=
  | Ret (a : A)
  | Panicked (p : Panic).
Arguments Ret {A} a.
Arguments Panicked {A} p.

(** A panic unwinds through every caller: sequencing stops at the first. *)
Global Instance Result_bind : MBind Result := λ A B k r,
  match r with
  | Ret a => k a
  | Panicked p => Panicked p
  end.

(** [*p] *)
Definition deref {A : Type} (p : option A) : Result A :=
  match p with
  | Some a => Ret a
  | None => Panicked NilDereference
  end.

(** A Go [error], by its text. *)
Abbreviation error := string.

(** ** Client state *)

(** The client's [service] type and its [handleRequest] method are declared
    in another file of the package.  [srvc] may be nil in
    [client.handleRequest], hence the [option]. *)
Class ServiceImpl := {
  service : Type;
  service_Name : service → string;
  service_Identification : service → string;
  service_handleRequest :
    option service → Request → string → Result (bytes * option error) }.

Inductive Effect :=
  | EvSendMessage (msg : Message).    (* common.SendMessage(c.conn, msg) *)

(** An unbuffered channel on which exactly one receive is ever made, by the
    caller that created it. *)
Inductive chanState :=
  | Receiving                 (* the caller is blocked in [<-ch] *)
  | Received (rep : Reply).   (* the caller took [rep] and returned *)

Section Model.
Context `{!RegexpLib, !ServiceImpl}.
Context `{!Marshal Request, !Marshal Reply, !Marshal Register,
          !Marshal Subscribe, !Marshal Publish}.
(** What the subscribers' handlers act on. *)
Variable World : Type.

Definition subscriberHandler := string → bytes → World → World.

Record subscriber := {
  eventPattern : Regexp;
  handle : subscriberHandler }.

Record client := {
  conn : Conn;
  services : gmap string (gmap string service);
  subscribers : list subscriber;
  currentRequestId : Z;
  requestsInFlight : gmap Z Chan;
  (* the channel objects [requestsInFlight] refers to *)
  chans : gmap Chan chanState }.

(** [atomic.AddUint64(&c.currentRequestId, 1)] *)
Definition nextRequestId (c : client) : Z :=
  ((currentRequestId c + 1) mod 2 ^ 64)%Z.

(** [sendRequestWaitForReply] up to and including [common.SendMessage]:
    the client it leaves, the id given to the request and the message sent.
    The caller then blocks in [awaitReply]. *)
Definition sendRequest (c : client) (req : Request)
    : Result (client * Z * list Effect) :=
  (* Add message Id *)
  deref (Id req);;
  let id := nextRequestId c in
  let req := {| Id := Some id; ServiceName := ServiceName req;
                ServiceIdentification := ServiceIdentification req;
                Method := Method req; Data := Data req |} in
  match marshal req with
  | None => Panicked CouldNotMarshalRequest
  | Some reqBytes =>
      match requestsInFlight c !! id with
      | Some _ => Panicked (DuplicateRequestId id)
      | None =>
          (* Track request id *)
          let ch := fresh (dom (chans c)) in
          let c' := {| conn := conn c; services := services c;
                       subscribers := subscribers c;
                       currentRequestId := id;
                       requestsInFlight := <[id := ch]> (requestsInFlight c);
                       chans := <[ch := Receiving]> (chans c) |} in
          Ret (c', id,
               [EvSendMessage {| Type_ := Some Message_Request;
                                 Content := reqBytes |}])
      end
  end.

(** [<-c.requestsInFlight[*req.Id]]: the reply, once one was handed over. *)
Definition awaitReply (c : client) (id : Z) : option Reply :=
  requestsInFlight c !! id ≫= λ ch,
  match chans c !! ch with
  | Some (Received rep) => Some rep
  | _ => None
  end.

(** How a call of [handleReply] ends: it returns, or its channel send never
    completes because nobody receives on the channel any more. *)
Inductive replyOutcome :=
  | Returned (e : option error)
  | Blocked.

Definition handleReply (c : client) (rep : Reply) : client * replyOutcome :=
  match requestsInFlight c !! GetId rep with
  | None => (c, Returned (Some "Could not find request matching reply"))
  | Some replyChan =>
      match chans c !! replyChan with
      | Some Receiving =>
          ({| conn := conn c; services := services c;
              subscribers := subscribers c;
              currentRequestId := currentRequestId c;
              requestsInFlight := requestsInFlight c;
              chans := <[replyChan := Received rep]> (chans c) |},
           Returned None)
      | _ => (c, Blocked)
      end
  end.

Definition handleRequest (c : client) (req : Request)
    : Result (bytes * option error) :=
  name ← deref (ServiceName req);
  method ← deref (Method req);
  id ← deref (Id req);
  sid ← deref (ServiceIdentification req);
  let ident := if decide (sid ≠ "") then sid else "" in
  (* Find service instance *)
  match services c !! name with
  | None => Panicked (NoSuchService id name)
  | Some idents =>
      if decide (size idents = 0) then Panicked (NoSuchService id name)
      else service_handleRequest (idents !! ident) req method
  end.

Definition handleRequestReply (c : client) (req : Request)
    : Result (list Effect) :=
  (* Handle request *)
  '(replyBytes, err) ← handleRequest c req;
  (* Send reply *)
  let msgContent :=
    {| RepId := Id req; RepData := replyBytes;
       Error := (λ errString,
                   {| ErrType := Some Reply_Error_Custom;
                      What := Some errString |}) <$> err |} in
  let msgContentBytes := default [] (marshal msgContent) in
  Ret [EvSendMessage {| Type_ := Some Message_Reply;
                        Content := msgContentBytes |}].

(** [handlePublish]: the handlers run in the order of [c.subscribers]. *)
Fixpoint runSubscribers (hs : list subscriber) (eventName : string)
    (data : bytes) (w : World) : World :=
  match hs with
  | [] => w
  | h :: hs' =>
      if Regexp_Match (eventPattern h) eventName
      then runSubscribers hs' eventName data (handle h eventName data w)
      else runSubscribers hs' eventName data w
  end.

Definition handlePublish (c : client) (pub : Publish) (w : World) : World :=
  let eventName := GetEvent pub in
  runSubscribers (subscribers c) eventName (GetData pub) w.

Definition Subscribe_ (c : client) (eventPattern : Regexp)
    (handler : subscriberHandler) : client * list Effect * option error :=
  (* Get string representing the event regexp *)
  let eventPatternStr := Regexp_String eventPattern in
  (* Create and add to subscriber map *)
  let s := {| eventPattern := eventPattern; handle := handler |} in
  let c' := {| conn := conn c; services := services c;
               subscribers := subscribers c ++ [s];
               currentRequestId := currentRequestId c;
               requestsInFlight := requestsInFlight c;
               chans := chans c |} in
  (* Prepare subscribe message *)
  match marshal {| SubEvent := Some eventPatternStr |} with
  | None => (c', [], Some "Could not marshal subscribe")
  | Some subBytes =>
      (c', [EvSendMessage {| Type_ := Some Message_Subscribe;
                             Content := subBytes |}], None)
  end.

Definition RegisterService (c : client) (s : service)
    : client * list Effect :=
  let name := service_Name s in
  let ident := service_Identification s in
  (* Make sure the second map is created; keep a pointer to the service *)
  let inner := default ∅ (services c !! name) in
  let c' := {| conn := conn c;
               services := <[name := <[ident := s]> inner]> (services c);
               subscribers := subscribers c;
               currentRequestId := currentRequestId c;
               requestsInFlight := requestsInFlight c;
               chans := chans c |} in
  let msgContentBytes :=
    default [] (marshal {| RegName := Some name;
                           RegIdentification := Some ident |}) in
  (c', [EvSendMessage {| Type_ := Some Message_Register;
                         Content := msgContentBytes |}]).

(** The calls that change a client: one step per method of the package
    that writes to the [client] struct. *)
Inductive step : client → client → Prop :=
  | step_sendRequest c req c' id tr :
      sendRequest c req = Ret (c', id, tr) → step c c'
  | step_handleReply c rep c' o :
      handleReply c rep = (c', o) → step c c'
  | step_Subscribe c re h c' tr e :
      Subscribe_ c re h = (c', tr, e) → step c c'
  | step_RegisterService c s c' tr :
      RegisterService c s = (c', tr) → step c c'.

(** ** The receive side *)

Context `{!Unmarshal Request, !Unmarshal Reply, !Unmarshal Publish}.

(** [handleMessage]: the client and the world it leaves, the messages it
    sent and how the call ended.  [msg] is a pointer. *)
Definition handleMessage (c : client) (msg : option Message) (w : World)
    : Result (client * World * list Effect * replyOutcome) :=
  m ← deref msg;
  t ← deref (Type_ m);
  (* Parse and process message payload *)
  if decide (t = Message_Request) then
    match unmarshal (A := Request) (Content m) with
    | None => Ret (c, w, [], Returned (Some "Could not unmarshal request"))
    | Some request =>
        tr ← handleRequestReply c request;
        Ret (c, w, tr, Returned None)
    end
  else if decide (t = Message_Publish) then
    match unmarshal (A := Publish) (Content m) with
    | None => Ret (c, w, [], Returned (Some "Could not unmarshal publish"))
    | Some pub => Ret (c, handlePublish c pub w, [], Returned None)
    end
  else if decide (t = Message_Reply) then
    match unmarshal (A := Reply) (Content m) with
    | None => Ret (c, w, [], Returned (Some "Could not unmarshal reply"))
    | Some rep => let '(c', o) := handleReply c rep in Ret (c', w, [], o)
    end
  else if decide (t = Message_Subscribe ∨ t = Message_Register) then
    Ret (c, w, [],
         Returned (Some "Client received unsupported message type"))
  else Ret (c, w, [], Returned (Some "Unknown message type")).

(** One result of [common.RecvMessage], as the client reads it. *)
Record Recv := {
  closed : bool; msg : option Message; err : option error }.

(** How far the goroutine started by [NewConnection] got. *)
Inductive loopEnd :=
  | Receiving_                (* blocked in [RecvMessage] *)
  | Closing                   (* the stream closed: [c.Close()], [break] *)
  | Crashed (p : Panic)       (* a panic left [handleMessage] *)
  | Stuck.                    (* [handleMessage] never returned *)

(** The [for] loop of the goroutine started by [NewConnection], over the
    results [RecvMessage] yields. *)
Fixpoint receiveLoop (inputs : list Recv) (c : client) (w : World)
    : client * World * list Effect * loopEnd :=
  match inputs with
  | [] => (c, w, [], Receiving_)
  | r :: rest =>
      if closed r then (c, w, [], Closing)
      else
        match handleMessage c (msg r) w with
        | Panicked p => (c, w, [], Crashed p)
        | Ret (c1, w1, tr1, Blocked) => (c1, w1, tr1, Stuck)
        | Ret (c1, w1, tr1, Returned _) =>
            let '(c2, w2, tr2, e) := receiveLoop rest c1 w1 in
            (c2, w2, tr1 ++ tr2, e)
        end
  end.

(** ** Publishing *)

(** [json.Marshal] of the standard library. *)
Class JSONMarshal (A : Type) := json_Marshal : A → option bytes.

Inductive PublishPanic :=
  | CouldNotMarshalToJSON
  | CouldNotMarshalPublish.

(** [Publish]: the messages sent, or the panic. *)
Definition Publish_ `{!JSONMarshal A} (c : client) (event : string)
    (data : A) : PublishPanic + list Effect :=
  (* Serialize request payload *)
  match json_Marshal data with
  | None => inl CouldNotMarshalToJSON
  | Some dataBytes =>
      (* Prepare Publish message *)
      match marshal {| Event := Some event; PubData := dataBytes |} with
      | None => inl CouldNotMarshalPublish
      | Some pubBytes =>
          (* Send message *)
          inr [EvSendMessage {| Type_ := Some Message_Publish;
                                Content := pubBytes |}]
      end
  end.

End Model.

Arguments eventPattern {_ World} s.
Arguments handle {_ World} s.
Arguments conn {_ _ World} c.
Arguments services {_ _ World} c.
Arguments subscribers {_ _ World} c.
Arguments currentRequestId {_ _ World} c.
Arguments requestsInFlight {_ _ World} c.
Arguments chans {_ _ World} c.
Arguments nextRequestId {_ _ World} c.
Arguments sendRequest {_ _ _ World} c req.
Arguments awaitReply {_ _ World} c id.
Arguments handleReply {_ _ World} c rep.
Arguments handleRequest {_ _ World} c req.
Arguments handleRequestReply {_ _ _ World} c req.
Arguments runSubscribers {_ World} hs eventName data w.
Arguments handlePublish {_ _ World} c pub w.
Arguments Subscribe_ {_ _ _ World} c eventPattern handler.
Arguments RegisterService {_ _ _ World} c s.
Arguments step {_ _ _ _ _ World} _ _.
Arguments handleMessage {_ _ _ World _ _ _} c msg w.
Arguments receiveLoop {_ _ _ World _ _ _} inputs c w.
Arguments Publish_ {_ _ _ World A _} c event data.

End Client.

(** * Reference instances of the library interfaces

    The theorems below hold for every instance of [Unmarshal], [Marshal],
    [RegexpLib] and [ServiceImpl].  The concrete scenarios are run on the
    small instances of this module. *)
Module Reference.

(** ** A regular-expression matcher for literals, escapes, [.] and [*] *)

Inductive re :=
  | Never
  | Eps
  | Chr (a : ascii)
  | AnyChar
  | Alt (r1 r2 : re)
  | Cat (r1 r2 : re)
  | Star (r : re).

Fixpoint nullable (r : re) : bool :=
  match r with
  | Never | Chr _ | AnyChar => false
  | Eps | Star _ => true
  | Alt r1 r2 => nullable r1 || nullable r2
  | Cat r1 r2 => nullable r1 && nullable r2
  end.

(** Brzozowski derivative; [.] matches any character but a newline. *)
Fixpoint deriv (a : ascii) (r : re) : re :=
  match r with
  | Never | Eps => Never
  | Chr b => if decide (a = b) then Eps else Never
  | AnyChar => if decide (a = "010"%char) then Never else Eps
  | Alt r1 r2 => Alt (deriv a r1) (deriv a r2)
  | Cat r1 r2 =>
      if nullable r1 then Alt (Cat (deriv a r1) r2) (deriv a r2)
      else Cat (deriv a r1) r2
  | Star r1 => Cat (deriv a r1) (Star r1)
  end.

(** Some prefix of [s] is in the language of [r]. *)
Fixpoint prefixMatch (r : re) (s : string) : bool :=
  nullable r ||
  match s with
  | EmptyString => false
  | String a s' => prefixMatch (deriv a r) s'
  end.

(** Some substring of [s] is in the language of [r]: an unanchored match. *)
Fixpoint search (r : re) (s : string) : bool :=
  prefixMatch r s ||
  match s with
  | EmptyString => false
  | String _ s' => search r s'
  end.

Definition close (done : re) (last : option re) : re :=
  match last with
  | Some r => Cat done r
  | None => done
  end.

(** [done] is the expression read so far but for its [last] atom, which a
    following [*] applies to. *)
Fixpoint parse (s : string) (done : re) (last : option re) : option re :=
  match s with
  | EmptyString => Some (close done last)
  | String a s' =>
      if decide (a = "\"%char) then
        match s' with
        | EmptyString => None
        | String c s'' => parse s'' (close done last) (Some (Chr c))
        end
      else if decide (a = "."%char) then
        parse s' (close done last) (Some AnyChar)
      else if decide (a = "*"%char) then
        match last with
        | Some r => parse s' done (Some (Star r))
        | None => None
        end
      else if Broker.isMeta a then None
      else parse s' (close done last) (Some (Chr a))
  end.

Record compiled := { source : string; prog : re }.

Global Instance regexp : RegexpLib := {|
  Regexp := compiled;
  Regexp_Compile s := (λ r, {| source := s; prog := r |}) <$> parse s Eps None;
  Regexp_Match r s := search (prog r) s;
  Regexp_String r := source r |}.

(** ** A wire format with one-byte fields *)

Definition byteZ (b : byte) : Z := Z.of_N (Byte.to_N b).

Definition stringOfBytes (bs : bytes) : string :=
  string_of_list_ascii (map ascii_of_byte bs).

Global Instance unmarshal_Message : Unmarshal Broker.Message := λ raw,
  match raw with
  | t :: content => Some {| Broker.Type_ := byteZ t; Broker.Content := content |}
  | [] => None
  end.

Global Instance unmarshal_Reply : Unmarshal Broker.Reply := λ raw,
  match raw with
  | i :: data =>
      Some {| Broker.Id := byteZ i; Broker.Data := data; Broker.Error := None |}
  | [] => None
  end.

Global Instance unmarshal_Register : Unmarshal Broker.Register := λ raw,
  match raw with
  | [] => None
  | _ => Some {| Broker.RegName := stringOfBytes raw;
                 Broker.RegIdentification := "" |}
  end.

Global Instance unmarshal_Request : Unmarshal Broker.Request := λ raw,
  match raw with
  | i :: data =>
      Some {| Broker.ReqId := byteZ i; Broker.ServiceName := "";
              Broker.ServiceIdentification := ""; Broker.Method := "";
              Broker.ReqData := data |}
  | [] => None
  end.

Global Instance unmarshal_Subscribe : Unmarshal Broker.Subscribe := λ raw,
  match raw with
  | [] => None
  | _ => Some {| Broker.SubEvent := stringOfBytes raw |}
  end.

Global Instance unmarshal_Publish : Unmarshal Broker.Publish := λ raw,
  match raw with
  | [] => None
  | _ => Some {| Broker.Event := stringOfBytes raw; Broker.PubData := [] |}
  end.

(** Handlers that do nothing, for the registrations and requests of the
    scenarios, and the broker's subscribe and publish handlers. *)
Definition handlers : Broker.Handlers := {|
  Broker.onRegister _ _ b := (b, []);
  Broker.onRequest _ _ _ b := (b, []);
  Broker.onSubscribe := Broker.handleSubscribe;
  Broker.onPublish := Broker.handlePublish |}.

(** ** A client whose services echo the request data *)

Global Instance echo : Client.ServiceImpl := {|
  Client.service := string * string;
  Client.service_Name := fst;
  Client.service_Identification := snd;
  Client.service_handleRequest srvc req method :=
    match srvc with
    | Some _ => Client.Ret (Client.Data req, None)
    | None => Client.Panicked Client.NilDereference
    end |}.

Global Instance marshal_any {A : Type} : Marshal A := λ _, Some [].

(** The handlers of the scenarios record their calls. *)
Definition World : Type := list (nat * string * bytes).

Definition record (tag : nat) : Client.subscriberHandler World :=
  λ eventName data w, w ++ [(tag, eventName, data)].

Definition emptyClient : Client.client World := {|
  Client.conn := 0; Client.services := ∅; Client.subscribers := [];
  Client.currentRequestId := 41; Client.requestsInFlight := ∅;
  Client.chans := ∅ |}.

(** ** Scenario: one request in flight *)

(** Connection 5 sent a request with id 7, tracked under broker id 1 and
    spied by connections 7 and 8. *)
Definition tracker5 : Broker.requestTracking := {|
  Broker.sender := 5; Broker.timer := 3; Broker.spies := [7; 8];
  Broker.start := 0; Broker.latencyObserver := 0; Broker.clientId := 7 |}.

Definition oneInFlight : Broker.Broker :=
  Broker.set_connList (λ _, [5; 6; 7; 8])
    (Broker.set_reqIds (λ _, {[1%Z := tracker5]}) Broker.New).

(** The frame of a reply with id 1 and no data, and the reply it decodes
    to. *)
Definition replyFrame1 : bytes := [x03; x01].
Definition reply1 : Broker.Reply :=
  {| Broker.Id := 1; Broker.Data := []; Broker.Error := None |}.

(** ** Scenario: a service with two spies, and subscriptions *)

(** Connection 5 owns service [math], which connections 7 and 8 spy. *)
Definition mathService : Broker.service := {|
  Broker.Name := "math"; Broker.Identification := "";
  Broker.SvcConn := 5; Broker.Spies := [7; 8] |}.

Definition mathBroker : Broker.Broker := {|
  Broker.connList := [5; 6; 7; 8];
  Broker.connNameMap := {[5 := "calc"]};
  Broker.connSpies := {[7 := [0]; 8 := [0]]};
  Broker.Services := {["math" := {["" := 0]}]};
  Broker.servicesConn := {[5 := [0]]};
  Broker.reqIds := ∅;
  Broker.subscriberMap := {["e" := [6; 5]]};
  Broker.subscriberMatchMap := ∅;
  Broker.svcHeap := {[0 := mathService]} |}.

(** Connection 5 subscribed to event [e] twice. *)
Definition twiceSubscribed : Broker.Broker :=
  Broker.set_connList (λ _, [5])
    (Broker.set_subscriberMap (λ _, {["e" := [5; 5]]}) Broker.New).

(** ** Scenario: a connection sends a message of unknown type, then a
    reply with id 1, then closes *)

Definition unknownMessage : Broker.Message :=
  {| Broker.Type_ := 9; Broker.Content := [] |}.

Definition session : list Broker.Recv := [
  {| Broker.closed := false; Broker.msgBytes_ := [x09];
     Broker.msg_ := Some unknownMessage; Broker.err := None |};
  {| Broker.closed := false; Broker.msgBytes_ := replyFrame1;
     Broker.msg_ := Some {| Broker.Type_ := 3; Broker.Content := [x01] |};
     Broker.err := None |};
  {| Broker.closed := true; Broker.msgBytes_ := [];
     Broker.msg_ := None; Broker.err := None |} ].

(** ** Scenario: a receive error that comes with no message, then the reply
    with id 1, then the close *)



(** ** Scenario: a request tracked under its own id *)




(** ** Scenario: a client with three subscribers *)

Definition pattern (s : string) : compiled :=
  {| source := s; prog := default Never (parse s Eps None) |}.

Definition subscribedClient : Client.client World := {|
  Client.conn := 0; Client.services := ∅;
  Client.subscribers := [
    {| Client.eventPattern := pattern "foo\..*"; Client.handle := record 1 |};
    {| Client.eventPattern := pattern "baz"; Client.handle := record 2 |};
    {| Client.eventPattern := pattern "bar"; Client.handle := record 3 |} ];
  Client.currentRequestId := 41; Client.requestsInFlight := ∅;
  Client.chans := ∅ |}.

Definition publishFooBar : Client.Publish :=
  {| Client.Event := Some "foo.bar"; Client.PubData := [x2a] |}.

(** ** Scenario: requests of a client *)

Definition ping : Client.Request := {|
  Client.Id := Some 0%Z; Client.ServiceName := Some "math";
  Client.ServiceIdentification := Some ""; Client.Method := Some "add";
  Client.Data := [x01; x02] |}.

Definition pong (id : Z) : Client.Reply :=
  {| Client.RepId := Some id; Client.RepData := [x03]; Client.Error := None |}.

(** A client whose counter is about to wrap around to 0, the id of a
    request it made earlier and got the reply of. *)
Definition wrapping : Client.client World := {|
  Client.conn := 0; Client.services := ∅; Client.subscribers := [];
  Client.currentRequestId := 2 ^ 64 - 1;
  Client.requestsInFlight := {[0%Z := 0]};
  Client.chans := {[0 := Client.Received (pong 0)]} |}.

(** A client that registered [math] only. *)
Definition mathClient : Client.client World := {|
  Client.conn := 0; Client.services := {["math" := {["" := ("math", "")]}]};
  Client.subscribers := []; Client.currentRequestId := 41;
  Client.requestsInFlight := ∅; Client.chans := ∅ |}.

Definition askDate : Client.Request := {|
  Client.Id := Some 7%Z; Client.ServiceName := Some "date";
  Client.ServiceIdentification := Some ""; Client.Method := Some "today";
  Client.Data := [] |}.

(** ** The one-byte wire format, as the client reads it *)

Global Instance unmarshal_client_Reply : Unmarshal Client.Reply := λ raw,
  match raw with
  | i :: data =>
      Some {| Client.RepId := Some (byteZ i); Client.RepData := data;
              Client.Error := None |}
  | [] => None
  end.

Global Instance unmarshal_client_Request : Unmarshal Client.Request := λ raw,
  match raw with
  | i :: name =>
      Some {| Client.Id := Some (byteZ i);
              Client.ServiceName := Some (stringOfBytes name);
              Client.ServiceIdentification := Some "";
              Client.Method := Some "m"; Client.Data := [] |}
  | [] => None
  end.

Global Instance unmarshal_client_Publish : Unmarshal Client.Publish := λ raw,
  match raw with
  | [] => None
  | _ => Some {| Client.Event := Some (stringOfBytes raw);
                 Client.PubData := [] |}
  end.

(** ** Scenario: what a client receives *)

Definition received (t : Z) (content : bytes) : Client.Recv := {|
  Client.closed := false;
  Client.msg := Some {| Client.Type_ := Some t; Client.Content := content |};
  Client.err := None |}.

(** A client waiting for the reply to request 42. *)
Definition waiting42 : Client.client World := {|
  Client.conn := 0; Client.services := {["math" := {["" := ("math", "")]}]};
  Client.subscribers := []; Client.currentRequestId := 42;
  Client.requestsInFlight := {[42%Z := 0]};
  Client.chans := {[0 := Client.Receiving]} |}.

(** ** Scenario: a service that connection 9 spies together with 7 and 8 *)

Definition spiedBroker : Broker.Broker := {|
  Broker.connList := [5; 7; 8; 9];
  Broker.connNameMap := {[5 := "calc"; 9 := "spy"]};
  Broker.connSpies := {[7 := [0]; 8 := [0]; 9 := [0]]};
  Broker.Services := {["math" := {["" := 0]}]};
  Broker.servicesConn := {[5 := [0]]};
  Broker.reqIds := ∅;
  Broker.subscriberMap := ∅;
  Broker.subscriberMatchMap := ∅;
  Broker.svcHeap := {[0 := {| Broker.Name := "math";
                               Broker.Identification := "";
                               Broker.SvcConn := 5;
                               Broker.Spies := [7; 9; 8] |}]} |}.

(** ** Reading a payload dump back *)

Definition hexValue (a : ascii) : N :=
  match a with
  | "0" => 0 | "1" => 1 | "2" => 2 | "3" => 3 | "4" => 4 | "5" => 5
  | "6" => 6 | "7" => 7 | "8" => 8 | "9" => 9 | "A" => 10 | "B" => 11
  | "C" => 12 | "D" => 13 | "E" => 14 | "F" => 15 | _ => 0
  end%char%N.

Fixpoint parseDump (s : string) : option bytes :=
  match s with
  | EmptyString => Some []
  | String _ (String _ (String h (String l (String _ rest)))) =>
      b ← Byte.of_N (16 * hexValue h + hexValue l);
      bs ← parseDump rest;
      Some (b :: bs)
  | _ => None
  end.

(** ** Scenario: what the listener accepts *)

Definition accepted : list Broker.acceptResult :=
  [Broker.Accepted 1; Broker.AcceptNetError true; Broker.AcceptError;
   Broker.Accepted 2].

(** ** Scenario: messages a client receives *)

Definition subscribeMessage : Client.Message :=
  {| Client.Type_ := Some Client.Message_Subscribe; Client.Content := [x65] |}.

(** A Reply with id 42 and data [3]. *)
Definition replyMessage42 : Client.Message :=
  {| Client.Type_ := Some Client.Message_Reply;
     Client.Content := [x2a; x03] |}.

(** A Reply with id 0. *)
Definition replyMessage0 : Client.Message :=
  {| Client.Type_ := Some Client.Message_Reply; Client.Content := [x00] |}.

(** ** A one-byte encoding that the one-byte wire format reads back *)

Definition bytesOfString (s : string) : bytes :=
  map byte_of_ascii (list_ascii_of_string s).

Definition encodeRequest : Marshal Client.Request := λ r,
  i ← Client.Id r;
  b ← Byte.of_N (Z.to_N i);
  Some (b :: bytesOfString (default "" (Client.ServiceName r))).

Definition encodeReply : Marshal Client.Reply := λ r,
  i ← Client.RepId r;
  b ← Byte.of_N (Z.to_N i);
  Some (b :: Client.RepData r).

Definition encodePublish : Marshal Client.Publish := λ p,
  Some (bytesOfString (default "" (Client.Event p))).

Definition encodeJSON : Client.JSONMarshal unit := λ _, Some [].

Definition encodeSubscribe : Marshal Client.Subscribe := λ s,
  Some (bytesOfString (default "" (Client.SubEvent s))).

(** ** Scenario: what connection 6 does between a subscription and a
    publication *)

Definition traffic : list Broker.Traffic := [
  Broker.TSubscribe 6 {| Broker.SubEvent := "e" |};
  Broker.TPublish 6 [x05]
    {| Broker.Event := "baz"; Broker.PubData := [] |} ].

(** A request of [math]'s method [m], as the wire format reads it. *)
Definition askMath : Client.Request := {|
  Client.Id := Some 0%Z; Client.ServiceName := Some "math";
  Client.ServiceIdentification := Some ""; Client.Method := Some "m";
  Client.Data := [] |}.

End Reference.

(** * Properties of the broker *)

Import Broker.

(** ** Reply routing *)

Lemma sends_app (tr1 tr2 : list Effect) :
  sends (tr1 ++ tr2) = sends tr1 ++ sends tr2.
Proof. apply omap_app. Qed.

Lemma sends_SendRaw (raw : bytes) (cs : list Conn) :
  sends (map (λ c, EvSendRaw c raw) cs) = map (λ c, (c, raw)) cs.
Proof. induction cs as [|c cs IH]; simpl; [done|]. by rewrite <- IH. Qed.

Lemma handleReply_tracked (b : Broker) (conn : Conn) (msgRaw : bytes)
    (rep : Reply) (t : requestTracking) :
  reqIds b !! Id rep = Some t →
  handleReply b conn msgRaw rep =
    (set_reqIds (delete (Id rep)) b,
     [EvLog Info "[Reply] reply"; EvObserve (latencyObserver t) (start t)]
     ++ map (λ spy, EvSendRaw spy msgRaw) (spies t)
     ++ [EvTimerStop (timer t); EvLog Debug "[Reply] Forwarding";
         EvSendRaw (sender t) msgRaw]).
Proof. intros Ht. unfold handleReply. by rewrite Ht. Qed.

Lemma handleReply_untracked (b : Broker) (conn : Conn) (msgRaw : bytes)
    (rep : Reply) :
  reqIds b !! Id rep = None →
  handleReply b conn msgRaw rep =
    (b, [EvLog Info "[Reply] reply"; EvLog Error_ "[Reply] Unknown ID"]).
Proof. intros Ht. unfold handleReply. by rewrite Ht. Qed.



Lemma sentTo_member (c : Conn) (raw : bytes) (cs : list Conn) :
  c ∈ cs → raw ∈ sentTo c (map (λ c', EvSendRaw c' raw) cs).
Proof.
  induction cs as [|c' cs IH]; intros Hin; simpl; [by inversion Hin|].
  destruct (decide (c' = c)) as [->|Hne]; [apply list_elem_of_here|].
  apply IH. apply elem_of_cons in Hin as [->|Hin]; done.
Qed.


(** After a reply with some id was handled, no tracker is left under it. *)
Lemma handleReply_forgets (b : Broker) (conn : Conn) (msgRaw : bytes)
    (rep : Reply) :
  reqIds (handleReply b conn msgRaw rep).1 !! Id rep = None.
Proof.
  unfold handleReply. destruct (reqIds b !! Id rep) as [t|] eqn:Ht; simpl.
  - apply lookup_delete_eq.
  - exact Ht.
Qed.

(** C4: when a Reply matches a tracker, the frames written are, in order,
    one copy of the raw reply bytes per spy recorded in the tracker and then
    exactly one copy to the stored sender; nothing else is written, so the
    spies are served before the sender, there is a single sender, and every
    copy is the received frame itself. *)
Theorem handleReply_spies_then_sender (b : Broker) (conn : Conn)
    (msgRaw : bytes) (rep : Reply) (t : requestTracking) :
  reqIds b !! Id rep = Some t →
  sends (handleReply b conn msgRaw rep).2 =
    map (λ spy, (spy, msgRaw)) (spies t) ++ [(sender t, msgRaw)].
Proof.
  intros Ht. rewrite (handleReply_tracked _ _ _ _ _ Ht). simpl.
  rewrite sends_app, sends_SendRaw. done.
Qed.

Lemma handleReply_spies_then_sender_witness :
  sends (handleReply Reference.oneInFlight 6 Reference.replyFrame1
           Reference.reply1).2 =
    [(7, Reference.replyFrame1); (8, Reference.replyFrame1);
     (5, Reference.replyFrame1)].
Proof.
  exact (handleReply_spies_then_sender Reference.oneInFlight 6
           Reference.replyFrame1 Reference.reply1 Reference.tracker5
           eq_refl).
Defined.

(** C5: a Reply whose id matches no tracker, be it that none was ever
    recorded under the id or that an earlier Reply with the same id already
    consumed it, is logged and dropped: the broker is left as it was and the
    only effects are the two log lines, so nothing is written to any
    connection. *)
Theorem handleReply_unknown_id_dropped (b : Broker) (conn : Conn)
    (msgRaw : bytes) (rep : Reply) :
  (reqIds b !! Id rep = None ∨
   ∃ b0 conn0 raw0 rep0,
     b = (handleReply b0 conn0 raw0 rep0).1 ∧ Id rep0 = Id rep) →
  handleReply b conn msgRaw rep =
    (b, [EvLog Info "[Reply] reply"; EvLog Error_ "[Reply] Unknown ID"]).
Proof.
  intros [Hnone | (b0 & conn0 & raw0 & rep0 & -> & Hid)].
  - by apply handleReply_untracked.
  - apply handleReply_untracked. rewrite <- Hid. apply handleReply_forgets.
Qed.

Lemma handleReply_unknown_id_dropped_witness :
  let b1 := (handleReply Reference.oneInFlight 6 Reference.replyFrame1
               Reference.reply1).1 in
  handleReply b1 6 Reference.replyFrame1 Reference.reply1 =
    (b1, [EvLog Info "[Reply] reply"; EvLog Error_ "[Reply] Unknown ID"]).
Proof.
  exact (handleReply_unknown_id_dropped _ 6 Reference.replyFrame1
           Reference.reply1
           (or_intror (ex_intro _ Reference.oneInFlight
              (ex_intro _ 6 (ex_intro _ Reference.replyFrame1
                 (ex_intro _ Reference.reply1 (conj eq_refl eq_refl))))))).
Defined.

Lemma SendRaw_in_map (out raw : bytes) (x : Conn) (cs : list Conn) :
  EvSendRaw x out ∈ map (λ spy, EvSendRaw spy raw) cs → out = raw.
Proof.
  intros Hin. apply list_elem_of_In, in_map_iff in Hin as (spy & Heq & _).
  by inversion Heq.
Qed.



(** ** Teardown *)

Lemma removeServices_eq (ps : list SvcPtr) (b : Broker) :
  removeServices ps b =
    (set_Services
       (λ S, foldl (λ S p, deleteService (svcHeap b !!! p) S) S ps) b,
     flat_map (λ p, lostService (svcHeap b !!! p)) ps).
Proof.
  revert b. induction ps as [|p ps IH]; intros b; simpl.
  - by destruct b.
  - rewrite IH. reflexivity.
Qed.

(** The broker and the effects [teardown] leaves, field by field. *)
Lemma teardown_eq (conn : Conn) (b : Broker) :
  teardown conn b =
    ({| connList := removeElt conn (connList b);
        connNameMap := delete conn (connNameMap b);
        connSpies := delete conn (connSpies b);
        Services :=
          foldl (λ S p, deleteService (svcHeap b !!! p) S) (Services b)
                (default [] (servicesConn b !! conn));
        servicesConn := delete conn (servicesConn b);
        reqIds := reqIds b;
        subscriberMap := (removeConnFromMap conn (subscriberMap b)).1;
        subscriberMatchMap :=
          (removeConnFromMap conn (subscriberMatchMap b)).1;
        svcHeap :=
          unspy conn (default [] (connSpies b !! conn)) (svcHeap b) |},
     flat_map (λ p, lostService (svcHeap b !!! p))
              (default [] (servicesConn b !! conn))
     ++ (removeConnFromMap conn (subscriberMap b)).2
     ++ (removeConnFromMap conn (subscriberMatchMap b)).2
     ++ [EvPublish logCloseConnection (connToJSON conn)]).
Proof. unfold teardown. rewrite removeServices_eq. reflexivity. Qed.

Lemma rangeSubs_trace (conn : Conn) (key : string) (n i todo : nat)
    (arr : list Conn) (entry : option nat) (tr : list Effect) :
  ∃ k, (rangeSubs conn key n i todo arr entry tr).2 =
       tr ++ replicate k
               (EvPublish logLostSubscriber (logSubscriberJSON key conn)).
Proof.
  revert i arr entry tr.
  induction todo as [|todo IH]; intros i arr entry tr; simpl.
  - exists 0. by rewrite app_nil_r.
  - destruct (decide (arr !! i = Some conn)); [|apply IH].
    destruct (decide (n - 1 = 0)).
    + by exists 1.
    + destruct (IH (S i) (<[i:=arr !!! (n - 1)]> arr) (Some (n - 1))
                  (tr ++ [EvPublish logLostSubscriber
                            (logSubscriberJSON key conn)])) as [k Hk].
      exists (S k). rewrite Hk, <- app_assoc. reflexivity.
Qed.

(** [removeConnFromMap] does nothing but publish [log.lost_subscriber]. *)
Lemma removeConnFromMap_trace (conn : Conn) (m : gmap string (list Conn)) :
  Forall (λ e, ∃ key, e = EvPublish logLostSubscriber
                              (logSubscriberJSON key conn))
         (removeConnFromMap conn m).2.
Proof.
  unfold removeConnFromMap. simpl. apply Forall_flat_map, Forall_forall.
  intros [key subs] _. simpl. unfold removeConnFromSubs.
  destruct (rangeSubs_trace conn key (length subs) 0 (length subs) subs
              (Some (length subs)) []) as [k Hk].
  destruct (rangeSubs _ _ _ _ _ _ _ _) as [[arr entry] tr]. simpl in *.
  subst tr. apply Forall_forall. intros e Hin.
  apply elem_of_replicate in Hin as [-> _]. by exists key.
Qed.

Lemma published_app (ev : string) (tr1 tr2 : list Effect) :
  published ev (tr1 ++ tr2) = published ev tr1 ++ published ev tr2.
Proof. apply omap_app. Qed.

Lemma closedConns_app (tr1 tr2 : list Effect) :
  closedConns (tr1 ++ tr2) = closedConns tr1 ++ closedConns tr2.
Proof. apply omap_app. Qed.

Lemma removeConnFromMap_published (conn : Conn)
    (m : gmap string (list Conn)) :
  published logLostService (removeConnFromMap conn m).2 = [] ∧
  closedConns (removeConnFromMap conn m).2 = [].
Proof.
  pose proof (removeConnFromMap_trace conn m) as Htr.
  induction Htr as [|e tr [key ->] _ [IH1 IH2]]; [done|].
  split; simpl; [exact IH1 | exact IH2].
Qed.

Lemma lostService_published (ss : list service) :
  published logLostService (flat_map lostService ss) = map JSONStruct ss ∧
  closedConns (flat_map lostService ss) = flat_map Spies ss.
Proof.
  induction ss as [|s ss [IH1 IH2]]; [done|]. simpl.
  rewrite published_app, !closedConns_app, IH1, IH2.
  assert (∀ cs, published logLostService
                  (flat_map (λ c, [EvLog Debug "[Service] Close spy conn";
                                   EvClose c]) cs) = [] ∧
                closedConns
                  (flat_map (λ c, [EvLog Debug "[Service] Close spy conn";
                                   EvClose c]) cs) = cs) as Hspies.
  { induction cs as [|c cs [IHa IHb]]; [done|]. simpl. by rewrite IHa, IHb. }
  destruct (Hspies (Spies s)) as [-> ->]. done.
Qed.

Lemma serviceAt_deleteService (s : service)
    (S : gmap string (gmap string SvcPtr)) (name ident : string) :
  serviceAt (deleteService s S) name ident =
    if decide (name = Name s ∧ ident = Identification s) then None
    else serviceAt S name ident.
Proof.
  unfold serviceAt, deleteService.
  destruct (decide (name = Name s)) as [->|Hname].
  - rewrite lookup_alter_eq. destruct (S !! Name s) as [idents|]; simpl.
    + destruct (decide (ident = Identification s)) as [->|Hident].
      * rewrite lookup_delete_eq. by rewrite decide_True.
      * rewrite lookup_delete_ne by done. rewrite decide_False; [done|].
        by intros [_ ?].
    + by destruct (decide _).
  - rewrite lookup_alter_ne by done. rewrite decide_False; [done|].
    by intros [? _].
Qed.

Lemma serviceAt_deleteServices_None (ss : list service)
    (S : gmap string (gmap string SvcPtr)) (name ident : string) :
  serviceAt S name ident = None →
  serviceAt (foldl (λ S s, deleteService s S) S ss) name ident = None.
Proof.
  revert S. induction ss as [|s ss IH]; intros S HS; simpl; [done|].
  apply IH. rewrite serviceAt_deleteService. by destruct (decide _).
Qed.

Lemma serviceAt_deleteServices (ss : list service)
    (S : gmap string (gmap string SvcPtr)) (s : service) :
  s ∈ ss →
  serviceAt (foldl (λ S s, deleteService s S) S ss)
            (Name s) (Identification s) = None.
Proof.
  revert S. induction ss as [|s1 ss IH]; intros S Hin; simpl.
  - by inversion Hin.
  - apply elem_of_cons in Hin as [->|Hin]; [|by apply IH].
    apply serviceAt_deleteServices_None.
    rewrite serviceAt_deleteService. by rewrite decide_True.
Qed.

Lemma foldl_map {A B C : Type} (f : A → C → A) (h : B → C) (a : A)
    (l : list B) :
  foldl (λ a x, f a (h x)) a l = foldl f a (map h l).
Proof. revert a. induction l as [|x l IH]; intros a; simpl; [done|apply IH]. Qed.

Lemma last_snoc' {A : Type} (l : list A) (x : A) : last (l ++ [x]) = Some x.
Proof. induction l as [|y [|z l] IH]; done. Qed.

(** C7: teardown of a connection removes every service the connection owns
    from the service table under its (name, identification) key, publishes
    [log.lost_service] once for each of them, in order, closes the spies of
    each of them, and ends by publishing [log.close_connection]. *)
Theorem teardown_removes_owned_services (conn : Conn) (b : Broker) :
  let owned := map (λ p, svcHeap b !!! p)
                   (default [] (servicesConn b !! conn)) in
  (∀ s, s ∈ owned →
     serviceAt (Services (teardown conn b).1) (Name s) (Identification s)
       = None) ∧
  published logLostService (teardown conn b).2 = map JSONStruct owned ∧
  closedConns (teardown conn b).2 = flat_map Spies owned ∧
  last (teardown conn b).2
    = Some (EvPublish logCloseConnection (connToJSON conn)).
Proof.
  intros owned. rewrite teardown_eq. cbn [fst snd Services].
  destruct (removeConnFromMap_published conn (subscriberMap b)) as [P1 C1].
  destruct (removeConnFromMap_published conn (subscriberMatchMap b))
    as [P2 C2].
  assert (flat_map (λ p, lostService (svcHeap b !!! p))
            (default [] (servicesConn b !! conn))
          = flat_map lostService owned) as ->.
  { unfold owned. induction (default [] (servicesConn b !! conn)) as [|p ps IH];
      simpl; [done|]. by rewrite IH. }
  destruct (lostService_published owned) as [P0 C0].
  repeat split.
  - intros s Hs.
    rewrite (foldl_map (λ S s, deleteService s S) (λ p, svcHeap b !!! p)).
    by apply serviceAt_deleteServices.
  - rewrite !published_app, P0, P1, P2. simpl. by rewrite app_nil_r.
  - rewrite !closedConns_app, C0, C1, C2. simpl. by rewrite app_nil_r.
  - rewrite !app_assoc. apply last_snoc'.
Qed.

Lemma teardown_removes_owned_services_witness :
  serviceAt (Services (teardown 5 Reference.mathBroker).1) "math" "" = None ∧
  published logLostService (teardown 5 Reference.mathBroker).2
    = [serviceJSON "math" ""] ∧
  closedConns (teardown 5 Reference.mathBroker).2 = [7; 8] ∧
  last (teardown 5 Reference.mathBroker).2
    = Some (EvPublish logCloseConnection (connToJSON 5)).
Proof.
  destruct (teardown_removes_owned_services 5 Reference.mathBroker)
    as (Hgone & Hpub & Hclose & Hlast).
  split; [|split; [exact Hpub|split; [exact Hclose|exact Hlast]]].
  apply (Hgone Reference.mathService). vm_compute. apply list_elem_of_here.
Defined.

(** The effects of teardown are log lines, publications and closes: it
    writes no frame, stops no timer and observes no latency. *)
Lemma teardown_effects (conn : Conn) (b : Broker) :
  Forall (λ e, match e with
               | EvLog _ _ | EvPublish _ _ | EvClose _ => True
               | _ => False
               end) (teardown conn b).2.
Proof.
  rewrite teardown_eq. cbn [snd]. repeat apply Forall_app_2.
  - apply Forall_flat_map, Forall_forall. intros p _. unfold lostService.
    repeat constructor. apply Forall_flat_map, Forall_forall. intros c _.
    by repeat constructor.
  - eapply Forall_impl; [apply removeConnFromMap_trace|].
    by intros e [key ->].
  - eapply Forall_impl; [apply removeConnFromMap_trace|].
    by intros e [key ->].
  - by repeat constructor.
Qed.

(** C2 (as stated, refuted): connection 5 has a request in flight when it
    closes.  After its teardown the tracker is still there, its sender is no
    longer in the connection list, its timer was not stopped, and the reply
    that arrives later is written to connection 5 instead of being dropped. *)
Lemma teardown_leaves_tracker_of_closed_sender :
  reqIds (teardown 5 Reference.oneInFlight).1 !! 1%Z
    = Some Reference.tracker5 ∧
  sender Reference.tracker5 = 5 ∧
  connList (teardown 5 Reference.oneInFlight).1 = [6; 7; 8] ∧
  (EvTimerStop (timer Reference.tracker5)
     ∉ (teardown 5 Reference.oneInFlight).2) ∧
  sentTo 5 (handleReply (teardown 5 Reference.oneInFlight).1 6
              Reference.replyFrame1 Reference.reply1).2
    = [Reference.replyFrame1].
Proof.
  repeat split; try reflexivity.
  intros Hin. pose proof (teardown_effects 5 Reference.oneInFlight) as Hall.
  rewrite Forall_forall in Hall. exact (Hall _ Hin).
Qed.

(** C2 (amended): teardown of a connection leaves the request-tracker table
    as it is and stops no timer.  A tracker whose sender is the closed
    connection stays, and a later reply with its id is not dropped: it is
    written to the tracker's spies and to the closed sender. *)
Theorem teardown_keeps_request_trackers (conn : Conn) (b : Broker) :
  reqIds (teardown conn b).1 = reqIds b ∧
  (∀ tm, EvTimerStop tm ∉ (teardown conn b).2) ∧
  (∀ conn' raw rep t,
     reqIds b !! Id rep = Some t → sender t = conn →
     sends (handleReply (teardown conn b).1 conn' raw rep).2
       = map (λ spy, (spy, raw)) (spies t) ++ [(conn, raw)]).
Proof.
  assert (reqIds (teardown conn b).1 = reqIds b) as Hreq
    by (by rewrite teardown_eq).
  repeat split; [done| |].
  - intros tm Hin. pose proof (teardown_effects conn b) as Hall.
    rewrite Forall_forall in Hall. exact (Hall _ Hin).
  - intros conn' raw rep t Ht <-.
    rewrite (handleReply_tracked _ conn' raw rep t) by (by rewrite Hreq).
    simpl. by rewrite sends_app, sends_SendRaw.
Qed.

Lemma teardown_keeps_request_trackers_witness :
  sends (handleReply (teardown 5 Reference.oneInFlight).1 6
           Reference.replyFrame1 Reference.reply1).2
    = [(7, Reference.replyFrame1); (8, Reference.replyFrame1);
       (5, Reference.replyFrame1)].
Proof.
  exact (proj2 (proj2 (teardown_keeps_request_trackers 5
                         Reference.oneInFlight))
           6 Reference.replyFrame1 Reference.reply1 Reference.tracker5
           eq_refl eq_refl).
Defined.

(** C3 (code defect): connection 5 subscribed to [e] twice.  Its teardown
    publishes [log.lost_subscriber] twice but removes one entry only: the
    subscriber table still holds connection 5 under [e]. *)
Theorem teardown_keeps_duplicate_subscription :
  subscriberMap Reference.twiceSubscribed !! "e" = Some [5; 5] ∧
  subscriberMap (teardown 5 Reference.twiceSubscribed).1 !! "e"
    = Some [5] ∧
  published logLostSubscriber (teardown 5 Reference.twiceSubscribed).2
    = [logSubscriberJSON "e" 5; logSubscriberJSON "e" 5].
Proof. repeat split; reflexivity. Qed.

Lemma rangeSubs_no_match (conn : Conn) (key : string) (n i todo : nat)
    (arr : list Conn) (entry : option nat) (tr : list Effect) :
  (∀ k, i ≤ k < i + todo → arr !! k ≠ Some conn) →
  rangeSubs conn key n i todo arr entry tr = (arr, entry, tr).
Proof.
  revert i. induction todo as [|todo IH]; intros i Hno; simpl; [done|].
  rewrite decide_False by (apply Hno; lia).
  apply IH. intros k Hk. apply Hno. lia.
Qed.

Lemma rangeSubs_first_match (conn : Conn) (key : string) (n i j todo : nat)
    (arr : list Conn) (entry : option nat) (tr : list Effect) :
  i ≤ j < i + todo →
  (∀ k, i ≤ k < j → arr !! k ≠ Some conn) →
  arr !! j = Some conn →
  rangeSubs conn key n i todo arr entry tr =
    let arr' := <[j := arr !!! (n - 1)]> arr in
    let tr' := tr ++ [EvPublish logLostSubscriber
                        (logSubscriberJSON key conn)] in
    if decide (n - 1 = 0) then (arr', None, tr')
    else rangeSubs conn key n (S j) (i + todo - S j) arr' (Some (n - 1)) tr'.
Proof.
  revert i. induction todo as [|todo IH]; intros i Hj Hbefore Hat; [lia|].
  simpl. destruct (decide (i = j)) as [->|Hne].
  - rewrite decide_True by done.
    replace (j + S todo - S j) with todo by lia. done.
  - rewrite decide_False by (apply Hbefore; lia).
    rewrite (IH (S i)); [|lia|intros k Hk; apply Hbefore; lia|done].
    replace (S i + todo - S j) with (i + S todo - S j) by lia. done.
Qed.

Lemma removeConnFromSubs_absent (conn : Conn) (key : string)
    (subs : list Conn) :
  conn ∉ subs → removeConnFromSubs conn key subs = (Some subs, []).
Proof.
  intros Hnot. unfold removeConnFromSubs.
  rewrite rangeSubs_no_match.
  - simpl. by rewrite firstn_all.
  - intros k _ Hk. apply Hnot. by eapply list_elem_of_lookup_2.
Qed.

Lemma removeConnFromSubs_once (conn : Conn) (key : string)
    (subs : list Conn) (j : nat) :
  subs !! j = Some conn →
  (∀ k, subs !! k = Some conn → k = j) →
  removeConnFromSubs conn key subs =
    (if decide (length subs = 1) then None
     else Some (take (length subs - 1)
                  (<[j := subs !!! (length subs - 1)]> subs)),
     [EvPublish logLostSubscriber (logSubscriberJSON key conn)]).
Proof.
  intros Hj Honly. unfold removeConnFromSubs.
  pose proof (lookup_lt_Some _ _ _ Hj) as Hlt.
  rewrite (rangeSubs_first_match conn key (length subs) 0 j (length subs));
    [|lia|intros k Hk Hc; apply Honly in Hc; lia|done].
  cbv zeta. destruct (decide (length subs - 1 = 0)) as [H0|H0].
  - rewrite decide_True by lia. done.
  - rewrite decide_False by lia. rewrite rangeSubs_no_match; [done|].
    intros k Hk. rewrite list_lookup_insert_ne by lia.
    intros Hc. apply Honly in Hc. lia.
Qed.

Lemma insert_Permutation_delete {A : Type} (l : list A) (j : nat) (z : A) :
  j < length l → <[j := z]> l ≡ₚ z :: delete j l.
Proof.
  revert j. induction l as [|x l IH]; intros [|j] Hlt; simpl in *;
    try lia; [done|].
  rewrite (IH j) by lia. apply Permutation_swap.
Qed.

Lemma delete_snoc {A : Type} (l : list A) (j : nat) (z : A) :
  j < length l → delete j (l ++ [z]) = delete j l ++ [z].
Proof.
  revert j. induction l as [|x l IH]; intros [|j] Hlt; simpl in *;
    try lia; [done|].
  by rewrite (IH j) by lia.
Qed.

Lemma swap_remove_Permutation (subs : list Conn) (j : nat) :
  j < length subs →
  take (length subs - 1) (<[j := subs !!! (length subs - 1)]> subs)
    ≡ₚ delete j subs.
Proof.
  intros Hlt.
  assert (subs !! (length subs - 1) = Some (subs !!! (length subs - 1)))
    as Hlast by (apply list_lookup_lookup_total_lt; lia).
  assert (subs = take (length subs - 1) subs ++ [subs !!! (length subs - 1)])
    as Hsplit.
  { rewrite <- (take_S_r _ _ _ Hlast).
    replace (S (length subs - 1)) with (length subs) by lia.
    by rewrite firstn_all. }
  destruct (decide (j = length subs - 1)) as [->|Hne].
  - rewrite take_insert_ge by lia. rewrite delete_take_drop.
    rewrite drop_ge by lia. by rewrite app_nil_r.
  - rewrite take_insert_lt by lia.
    rewrite insert_Permutation_delete by (rewrite length_take; lia).
    transitivity (delete j (take (length subs - 1) subs
                            ++ [subs !!! (length subs - 1)]));
      [|by rewrite <- Hsplit].
    rewrite delete_snoc by (rewrite length_take; lia).
    by rewrite Permutation_cons_append.
Qed.

Lemma swap_remove_other (conn : Conn) (subs : list Conn) (j : nat) :
  subs !! j = Some conn →
  (∀ k, subs !! k = Some conn → k = j) →
  conn ∉ take (length subs - 1) (<[j := subs !!! (length subs - 1)]> subs).
Proof.
  intros Hj Honly. pose proof (lookup_lt_Some _ _ _ Hj) as Hlt.
  rewrite (swap_remove_Permutation subs j Hlt). intros Hin.
  apply list_elem_of_lookup_1 in Hin as [k Hk].
  destruct (decide (k < j)).
  - rewrite list_lookup_delete_lt in Hk by done. apply Honly in Hk. lia.
  - rewrite list_lookup_delete_ge in Hk by lia. apply Honly in Hk. lia.
Qed.

(** When the closing connection has exactly one entry under a key, the
    inner loop of [removeConnFromMap] publishes [log.lost_subscriber] once
    and either deletes the key, when that entry was the only one, or leaves
    the other entries, none of them the closing connection. *)
Theorem removeConnFromSubs_single_entry (conn : Conn) (key : string)
    (subs : list Conn) (j : nat) :
  subs !! j = Some conn →
  (∀ k, subs !! k = Some conn → k = j) →
  (removeConnFromSubs conn key subs).2
    = [EvPublish logLostSubscriber (logSubscriberJSON key conn)] ∧
  match (removeConnFromSubs conn key subs).1 with
  | None => subs = [conn]
  | Some l => l ≠ [] ∧ (conn ∉ l) ∧ l ≡ₚ delete j subs
  end.
Proof.
  intros Hj Honly. rewrite (removeConnFromSubs_once conn key subs j Hj Honly).
  pose proof (lookup_lt_Some _ _ _ Hj) as Hlt.
  split; [done|]. simpl. destruct (decide (length subs = 1)) as [H1|H1].
  - destruct subs as [|x [|y subs]]; simpl in *; try lia.
    destruct j; [by inversion Hj|simpl in Hlt; lia].
  - pose proof (swap_remove_Permutation subs j Hlt) as Hperm.
    split; [|split; [by apply swap_remove_other|exact Hperm]].
    intros Hnil. rewrite Hnil in Hperm.
    apply Permutation_nil_l, (f_equal length) in Hperm.
    rewrite length_delete in Hperm by (by eexists). simpl in Hperm. lia.
Qed.

Lemma removeConnFromMap_lookup (conn : Conn) (m : gmap string (list Conn))
    (key : string) :
  (removeConnFromMap conn m).1 !! key =
    m !! key ≫= λ subs, (removeConnFromSubs conn key subs).1.
Proof. unfold removeConnFromMap. simpl. apply map_lookup_imap. Qed.

Lemma removeConnFromMap_single (conn : Conn) (m : gmap string (list Conn)) :
  (∀ key subs i j, m !! key = Some subs →
     subs !! i = Some conn → subs !! j = Some conn → i = j) →
  ∀ key l, (removeConnFromMap conn m).1 !! key = Some l → conn ∉ l.
Proof.
  intros Honce key l. rewrite removeConnFromMap_lookup.
  destruct (m !! key) as [subs|] eqn:Hkey; simpl; [|done].
  destruct (decide (conn ∈ subs)) as [Hin|Hnot].
  - apply list_elem_of_lookup_1 in Hin as [j Hj].
    assert (∀ k, subs !! k = Some conn → k = j) as Honly
      by (intros k Hk; by eapply Honce).
    rewrite (removeConnFromSubs_once conn key subs j Hj Honly). simpl.
    destruct (decide (length subs = 1)); [done|].
    intros [= <-]. by apply swap_remove_other.
  - rewrite removeConnFromSubs_absent by done. by intros [= <-].
Qed.

(** When the closing connection has at most one entry under every key of
    the two subscriber tables, no entry of either table references it after
    teardown. *)
Theorem teardown_unsubscribes_single_entries (conn : Conn) (b : Broker) :
  (∀ key subs i j,
     subscriberMap b !! key = Some subs ∨
     subscriberMatchMap b !! key = Some subs →
     subs !! i = Some conn → subs !! j = Some conn → i = j) →
  ∀ key l,
    subscriberMap (teardown conn b).1 !! key = Some l ∨
    subscriberMatchMap (teardown conn b).1 !! key = Some l →
    conn ∉ l.
Proof.
  intros Honce key l. rewrite teardown_eq. simpl. intros [Hl|Hl].
  - eapply (removeConnFromMap_single conn (subscriberMap b)); [|exact Hl].
    intros k subs i j Hk. apply (Honce k). by left.
  - eapply (removeConnFromMap_single conn (subscriberMatchMap b)); [|exact Hl].
    intros k subs i j Hk. apply (Honce k). by right.
Qed.

Lemma removeConnFromSubs_single_entry_witness :
  (removeConnFromSubs 5 "e" [6; 5; 7]).2
    = [EvPublish logLostSubscriber (logSubscriberJSON "e" 5)] ∧
  match (removeConnFromSubs 5 "e" [6; 5; 7]).1 with
  | None => [6; 5; 7] = [5]
  | Some l => l ≠ [] ∧ (5 ∉ l) ∧ l ≡ₚ delete 1 [6; 5; 7]
  end.
Proof.
  apply (removeConnFromSubs_single_entry 5 "e" [6; 5; 7] 1 eq_refl).
  intros [|[|[|k]]] Hk; by inversion Hk.
Defined.

Lemma teardown_unsubscribes_single_entries_witness :
  subscriberMap (teardown 5 Reference.mathBroker).1 !! "e" = Some [6] ∧
  5 ∉ [6].
Proof.
  split; [reflexivity|].
  apply (teardown_unsubscribes_single_entries 5 Reference.mathBroker)
    with (key := "e"); [|left; reflexivity].
  intros key subs i j [Hsubs|Hsubs] Hi Hj.
  - destruct (decide (key = "e")) as [->|Hne].
    + vm_compute in Hsubs. injection Hsubs as <-.
      destruct i as [|[|i]], j as [|[|j]]; by inversion Hi; inversion Hj.
    + unfold Reference.mathBroker in Hsubs. simpl in Hsubs.
      by rewrite lookup_singleton_ne in Hsubs.
  - unfold Reference.mathBroker in Hsubs. simpl in Hsubs.
    by rewrite lookup_empty in Hsubs.
Defined.

(** ** Message dispatch *)

Section DispatchFacts.
Context `{!Unmarshal Register, !Unmarshal Request, !Unmarshal Reply,
          !Unmarshal Subscribe, !Unmarshal Publish}.


(** The cases of the [switch] of [handleMessage] on a message. *)
Ltac handleMessage_cases msg :=
  unfold handleMessage; cbn [GetType GetContent from_option];
  repeat (destruct (decide (Type_ msg = _)) as [?Htag|?Htag]);
  repeat match goal with
         | |- context [unmarshal (A := ?T) ?c] =>
             destruct (unmarshal (A := T) c) eqn:?Hpayload
         | |- context [onRegister ?H ?c ?p ?b] => destruct (onRegister H c p b)
         | |- context [onRequest ?H ?c ?r ?p ?b] =>
             destruct (onRequest H c r p b)
         | |- context [onSubscribe ?H ?c ?p ?b] =>
             destruct (onSubscribe H c p b)
         | |- context [onPublish ?H ?c ?r ?p ?b] =>
             destruct (onPublish H c r p b)
         | |- context [handleReply ?b ?c ?r ?p] => destruct (handleReply b c r p)
         end;
  simpl.


Lemma handleMessage_error (H : Handlers) (conn : Conn) (msgBytes : bytes)
    (msg : Message) (b : Broker) :
  is_Some (errorOf (handleMessage H conn msgBytes (Some msg) b)) ↔
  (Type_ msg = Message_Register
     ∧ unmarshal (A := Register) (Content msg) = None) ∨
  (Type_ msg = Message_Request
     ∧ unmarshal (A := Request) (Content msg) = None) ∨
  (Type_ msg = Message_Reply
     ∧ unmarshal (A := Reply) (Content msg) = None) ∨
  (Type_ msg = Message_Subscribe
     ∧ unmarshal (A := Subscribe) (Content msg) = None) ∨
  (Type_ msg = Message_Publish
     ∧ unmarshal (A := Publish) (Content msg) = None) ∨
  Type_ msg ∉ [Message_Register; Message_Request; Message_Reply;
               Message_Subscribe; Message_Publish].
Proof.
  handleMessage_cases msg;
    (split;
     [ intros Herr;
       first [ by destruct Herr
             | by auto 10
             | do 5 right; rewrite !elem_of_cons, elem_of_nil; tauto ]
     | intros Hcase;
       first [ by eexists
             | exfalso;
               rewrite !elem_of_cons, elem_of_nil in Hcase;
               unfold Message_Register, Message_Request, Message_Reply,
                 Message_Subscribe, Message_Publish in *;
               intuition congruence ] ]).
Qed.

Lemma handleMessage_error_frame (H : Handlers) (conn : Conn)
    (msgBytes : bytes) (msg : Message) (b : Broker) :
  is_Some (errorOf (handleMessage H conn msgBytes (Some msg) b)) →
  ∃ tr e,
    handleMessage H conn msgBytes (Some msg) b = Returns b tr (Some e) ∧
    (tr = [] ∨ tr = logUnmarshalError (Content msg)) ∧
    ∀ H', handleMessage H' conn msgBytes (Some msg) b = Returns b tr (Some e).
Proof.
  handleMessage_cases msg; intros Herr; try (by destruct Herr);
    (eexists _, _; split; [done|split; [by auto|]]);
    intros H'; unfold handleMessage; cbn [GetType GetContent from_option];
    repeat (destruct (decide (Type_ msg = _)); try done);
    by rewrite ?Hpayload.
Qed.







End DispatchFacts.



(** ** Publish and subscribe *)

Section PubSubFacts.
Context `{!RegexpLib, !Client.ServiceImpl, !Marshal Client.Subscribe}.
Context `{!Unmarshal Register, !Unmarshal Request, !Unmarshal Reply,
          !Unmarshal Subscribe, !Unmarshal Publish}.
Context {World : Type}.

Lemma runSubscribers_filter (hs : list (Client.subscriber World))
    (eventName : string) (data : bytes) (w : World) :
  Client.runSubscribers hs eventName data w =
    foldl (λ w h, Client.handle h eventName data w) w
      (List.filter (λ h, Regexp_Match (Client.eventPattern h) eventName) hs).
Proof.
  revert w. induction hs as [|h hs IH]; intros w; simpl; [done|].
  destruct (Regexp_Match (Client.eventPattern h) eventName); simpl; apply IH.
Qed.

(** A connection is sent one copy per entry it has among the receivers. *)
Lemma sentTo_filter (c : Conn) (raw : bytes) (cs : list Conn) :
  sentTo c (map (λ c', EvSendRaw c' raw) cs)
    = (λ _, raw) <$> filter (λ c', c' = c) cs.
Proof.
  induction cs as [|c' cs IH]; simpl; [done|]. rewrite filter_cons.
  destruct (decide (c' = c)); simpl; by rewrite IH.
Qed.

Lemma filter_absent (c : Conn) (cs : list Conn) :
  c ∉ cs → filter (λ c', c' = c) cs = [].
Proof.
  induction cs as [|c' cs IH]; intros Hnot; [done|].
  apply not_elem_of_cons in Hnot as [Hne Hnot].
  rewrite filter_cons_False by congruence. by apply IH.
Qed.

Lemma filter_present (c : Conn) (cs : list Conn) :
  c ∈ cs ↔ c ∈ filter (λ c', c' = c) cs.
Proof.
  rewrite list_elem_of_filter. split; [by intros ?|by intros [_ ?]].
Qed.

Lemma elem_of_matchedSubscribers (c : Conn) (event : string)
    (m : gmap string (list Conn)) :
  c ∈ matchedSubscribers event m ↔
  ∃ p subs, m !! p = Some subs ∧ matchPattern p event = true ∧ c ∈ subs.
Proof.
  unfold matchedSubscribers. rewrite list_elem_of_In, in_flat_map. split.
  - intros ([p subs] & Hin & Hc). simpl in Hc.
    apply list_elem_of_In, elem_of_map_to_list in Hin.
    destruct (matchPattern p event) eqn:Hmatch; [|done].
    exists p, subs. by rewrite list_elem_of_In.
  - intros (p & subs & Hin & Hmatch & Hc). exists (p, subs). split.
    + by apply list_elem_of_In, elem_of_map_to_list.
    + simpl. rewrite Hmatch. by apply list_elem_of_In.
Qed.

(** Messages that are not subscriptions of [A] leave the entries of [A] in
    both subscriber tables as they are. *)
Lemma handleTraffic_others (A : Conn) (t : Traffic) (b : Broker)
    (key : string) :
  (∀ sub, t ≠ TSubscribe A sub) →
  filter (λ c, c = A)
      (default [] (subscriberMap (handleTraffic t b).1 !! key))
    = filter (λ c, c = A) (default [] (subscriberMap b !! key)) ∧
  filter (λ c, c = A)
      (default [] (subscriberMatchMap (handleTraffic t b).1 !! key))
    = filter (λ c, c = A) (default [] (subscriberMatchMap b !! key)).
Proof.
  intros Hother. destruct t as [conn sub|conn msgRaw pub|conn msgRaw rep].
  - assert (conn ≠ A) as Hne by (intros ->; by eapply Hother).
    simpl. unfold handleSubscribe.
    destruct (isLiteral (SubEvent sub)); simpl; split; try done;
      (destruct (decide (key = SubEvent sub)) as [->|Hkey];
       [ rewrite lookup_insert_eq; simpl;
         rewrite filter_app, filter_cons_False, filter_nil, app_nil_r by done;
         done
       | by rewrite lookup_insert_ne ]).
  - done.
  - simpl. unfold handleReply. by destruct (reqIds b !! Id rep).
Qed.

Lemma handleAll_others (A : Conn) (mid : list Traffic) (b : Broker)
    (key : string) :
  Forall (λ t, ∀ sub, t ≠ TSubscribe A sub) mid →
  filter (λ c, c = A) (default [] (subscriberMap (handleAll mid b).1 !! key))
    = filter (λ c, c = A) (default [] (subscriberMap b !! key)) ∧
  filter (λ c, c = A)
      (default [] (subscriberMatchMap (handleAll mid b).1 !! key))
    = filter (λ c, c = A) (default [] (subscriberMatchMap b !! key)).
Proof.
  intros Hmid. revert b. induction Hmid as [|t mid Ht _ IH]; intros b;
    [done|].
  simpl. destruct (handleTraffic t b) as [b1 tr1] eqn:Hstep.
  specialize (IH b1). destruct (handleAll mid b1) as [b2 tr2]. simpl in *.
  pose proof (handleTraffic_others A t b key Ht) as Hone.
  rewrite Hstep in Hone. simpl in Hone.
  destruct IH as [-> ->]. exact Hone.
Qed.

(** No message removes a subscriber. *)
Lemma handleTraffic_keeps (A : Conn) (t : Traffic) (b : Broker)
    (key : string) :
  (A ∈ default [] (subscriberMap b !! key) →
   A ∈ default [] (subscriberMap (handleTraffic t b).1 !! key)) ∧
  (A ∈ default [] (subscriberMatchMap b !! key) →
   A ∈ default [] (subscriberMatchMap (handleTraffic t b).1 !! key)).
Proof.
  destruct t as [conn sub|conn msgRaw pub|conn msgRaw rep].
  - simpl. unfold handleSubscribe.
    destruct (isLiteral (SubEvent sub)); simpl; split; try done;
      (destruct (decide (key = SubEvent sub)) as [->|Hkey];
       [ rewrite lookup_insert_eq; simpl; rewrite elem_of_app; auto
       | by rewrite lookup_insert_ne ]).
  - done.
  - simpl. unfold handleReply. by destruct (reqIds b !! Id rep).
Qed.

Lemma handleAll_keeps (A : Conn) (mid : list Traffic) (b : Broker)
    (key : string) :
  (A ∈ default [] (subscriberMap b !! key) →
   A ∈ default [] (subscriberMap (handleAll mid b).1 !! key)) ∧
  (A ∈ default [] (subscriberMatchMap b !! key) →
   A ∈ default [] (subscriberMatchMap (handleAll mid b).1 !! key)).
Proof.
  revert b. induction mid as [|t mid IH]; intros b; [done|].
  simpl. destruct (handleTraffic t b) as [b1 tr1] eqn:Hstep.
  specialize (IH b1). destruct (handleAll mid b1) as [b2 tr2]. simpl in *.
  pose proof (handleTraffic_keeps A t b key) as Hone.
  rewrite Hstep in Hone. simpl in Hone.
  destruct IH as [IH1 IH2], Hone as [Hone1 Hone2].
  split; intros Hin; [apply IH1, Hone1|apply IH2, Hone2]; exact Hin.
Qed.

(** C8: the client's [Subscribe] appends the subscriber and sends one
    Subscribe message carrying the string of the pattern; the broker,
    handling that message from connection [A], subscribes [A] to that
    string.  On the broker, a connection [A] that subscribes to the literal
    event [e], having no other subscription that matches [e], is sent the
    frame of a later publication of [e] exactly once, whatever
    subscriptions of other connections, publications and replies the broker
    handles in between; a connection that subscribes to a pattern is sent
    the frame of a later publication of any event the pattern matches.  On
    the client, [handlePublish] calls the handler of every subscriber whose
    pattern matches the event name, once each and in subscription order,
    with the event name and the data, and calls no other. *)
Theorem publish_reaches_subscribers :
  (∀ (c : Client.client World) (re : Regexp)
     (h : Client.subscriberHandler World) (subBytes : bytes)
     (H : Handlers) (A : Conn) (msgBytes : bytes) (b : Broker),
     marshal {| Client.SubEvent := Some (Regexp_String re) |}
       = Some subBytes →
     unmarshal (A := Subscribe) subBytes
       = Some {| SubEvent := Regexp_String re |} →
     onSubscribe H = handleSubscribe →
     Client.Subscribe_ c re h =
       ({| Client.conn := Client.conn c;
           Client.services := Client.services c;
           Client.subscribers :=
             Client.subscribers c
             ++ [{| Client.eventPattern := re; Client.handle := h |}];
           Client.currentRequestId := Client.currentRequestId c;
           Client.requestsInFlight := Client.requestsInFlight c;
           Client.chans := Client.chans c |},
        [Client.EvSendMessage
           {| Client.Type_ := Some Client.Message_Subscribe;
              Client.Content := subBytes |}],
        None) ∧
     handleMessage H A msgBytes
         (Some {| Type_ := Client.Message_Subscribe; Content := subBytes |})
         b
       = Returns (handleSubscribe A {| SubEvent := Regexp_String re |} b).1
           (handleSubscribe A {| SubEvent := Regexp_String re |} b).2
           None) ∧
  (∀ (b : Broker) (A B : Conn) (e : string) (d raw : bytes)
     (mid : list Traffic),
     isLiteral e = true →
     A ∉ default [] (subscriberMap b !! e) →
     A ∉ matchedSubscribers e (subscriberMatchMap b) →
     Forall (λ t, ∀ sub, t ≠ TSubscribe A sub) mid →
     sentTo A
       (handlePublish B raw {| Event := e; PubData := d |}
          (handleAll mid (handleSubscribe A {| SubEvent := e |} b).1).1).2
       = [raw]) ∧
  (∀ (b : Broker) (A B : Conn) (p ev : string) (d raw : bytes)
     (mid : list Traffic),
     isLiteral p = false →
     matchPattern p ev = true →
     raw ∈ sentTo A
             (handlePublish B raw {| Event := ev; PubData := d |}
                (handleAll mid
                   (handleSubscribe A {| SubEvent := p |} b).1).1).2) ∧
  (∀ (c : Client.client World) (pub : Client.Publish) (w : World),
     Client.handlePublish c pub w =
       foldl (λ w h, Client.handle h (Client.GetEvent pub)
                       (Client.GetData pub) w) w
         (List.filter
            (λ h, Regexp_Match (Client.eventPattern h) (Client.GetEvent pub))
            (Client.subscribers c))).
Proof.
  split; [|split; [|split]].
  - intros c re h subBytes Hs A msgBytes b Hmarshal Hunmarshal Hsub. split.
    + unfold Client.Subscribe_. by rewrite Hmarshal.
    + unfold handleMessage. simpl. rewrite Hunmarshal, Hsub. reflexivity.
  - intros b A B e d raw mid Hlit Hexact Hpat Hmid.
    unfold handlePublish. cbn [fst snd Event].
    rewrite sentTo_filter, filter_app.
    destruct (handleAll_others A mid
                (handleSubscribe A {| SubEvent := e |} b).1 e Hmid)
      as [-> _].
    rewrite (filter_absent A (matchedSubscribers e _)).
    + unfold handleSubscribe. simpl. rewrite Hlit. simpl.
      rewrite lookup_insert_eq. simpl.
      rewrite filter_app, (filter_absent A _ Hexact).
      by rewrite filter_cons_True.
    + rewrite elem_of_matchedSubscribers. intros (p & subs & Hp & Hm & Hin).
      apply Hpat, elem_of_matchedSubscribers.
      destruct (handleAll_others A mid
                  (handleSubscribe A {| SubEvent := e |} b).1 p Hmid)
        as [_ Hsame].
      rewrite Hp in Hsame. simpl in Hsame.
      apply filter_present in Hin. rewrite Hsame in Hin.
      apply filter_present in Hin. revert Hin.
      unfold handleSubscribe. simpl. rewrite Hlit. simpl.
      destruct (subscriberMatchMap b !! p) as [subs0|] eqn:Hp0; simpl.
      * intros Hin. by exists p, subs0.
      * by intros ?%elem_of_nil.
  - intros b A B p ev d raw mid Hlit Hmatch.
    unfold handlePublish. cbn [fst snd Event].
    apply sentTo_member, elem_of_app. right.
    apply elem_of_matchedSubscribers.
    pose proof (handleAll_keeps A mid
                  (handleSubscribe A {| SubEvent := p |} b).1 p)
      as [_ Hkeep].
    destruct (subscriberMatchMap
                (handleAll mid (handleSubscribe A {| SubEvent := p |} b).1).1
              !! p) as [subs|] eqn:Hp.
    + exists p, subs. split; [done|]. split; [done|]. apply Hkeep.
      unfold handleSubscribe. simpl. rewrite Hlit. simpl.
      rewrite lookup_insert_eq. simpl. apply elem_of_app. right.
      apply list_elem_of_here.
    + exfalso. simpl in Hkeep. eapply not_elem_of_nil, Hkeep.
      unfold handleSubscribe. simpl. rewrite Hlit. simpl.
      rewrite lookup_insert_eq. simpl. apply elem_of_app. right.
      apply list_elem_of_here.
  - intros c pub w. apply runSubscribers_filter.
Qed.

End PubSubFacts.

(** The client subscribes to the pattern [foo\..*]: it sends one Subscribe
    message, which subscribes connection 5 at the broker.  After connection
    6 subscribed to [e] and published [baz], the publications of [e] and of
    [foo.bar] by connection 6 reach connection 5, which subscribed to both.
    The client with subscribers [foo\..*], [baz] and [bar] runs the first
    and the third handler on [foo.bar]. *)
Lemma publish_reaches_subscribers_witness :
  (Client.Subscribe_ (Marshal3 := Reference.encodeSubscribe)
     Reference.mathClient (Reference.pattern "foo\..*")
     (Reference.record 4)).1.2
    = [Client.EvSendMessage
         {| Client.Type_ := Some 4%Z;
            Client.Content := Reference.bytesOfString "foo\..*" |}] ∧
  subscriberMatchMap
    (brokerAfter New
       (handleMessage Reference.handlers 5 []
          (Some {| Type_ := 4; Content := Reference.bytesOfString "foo\..*" |})
          New)) = {["foo\..*" := [5]]} ∧
  sentTo 5 (handlePublish 6 [x05; x65] {| Event := "e"; PubData := [] |}
              (handleAll Reference.traffic
                 (handleSubscribe 5 {| SubEvent := "e" |} New).1).1).2
    = [[x05; x65]] ∧
  [x05] ∈ sentTo 5
            (handlePublish 6 [x05] {| Event := "foo.bar"; PubData := [] |}
               (handleAll Reference.traffic
                  (handleSubscribe 5 {| SubEvent := "foo\..*" |} New).1).1).2 ∧
  Client.handlePublish Reference.subscribedClient Reference.publishFooBar []
    = [(1, "foo.bar", [x2a]); (3, "foo.bar", [x2a])].
Proof.
  destruct (publish_reaches_subscribers
              (Marshal0 := Reference.encodeSubscribe)
              (World := Reference.World))
    as (Hsubscribe & Hexact & Hpattern & Hclient).
  destruct (Hsubscribe Reference.mathClient (Reference.pattern "foo\..*")
              (Reference.record 4) (Reference.bytesOfString "foo\..*")
              Reference.handlers 5 [] New eq_refl eq_refl eq_refl)
    as [Hsent Hhandled].
  split; [by rewrite Hsent|]. split; [|split; [|split]].
  - change Client.Message_Subscribe with 4%Z in Hhandled.
    rewrite Hhandled. reflexivity.
  - apply (Hexact New 5 6 "e" [] [x05; x65] Reference.traffic eq_refl).
    + vm_compute. apply not_elem_of_nil.
    + vm_compute. apply not_elem_of_nil.
    + repeat constructor; discriminate.
  - exact (Hpattern New 5 6 "foo\..*" "foo.bar" [] [x05] Reference.traffic
             eq_refl eq_refl).
  - rewrite Hclient. reflexivity.
Defined.

(** * Properties of the client *)

Section ClientFacts.
Context `{!RegexpLib, !Client.ServiceImpl}.
Context `{!Marshal Client.Request, !Marshal Client.Reply,
          !Marshal Client.Register, !Marshal Client.Subscribe}.
Context {World : Type}.
Implicit Types c : Client.client World.

Lemma sendRequest_Ret c (req : Client.Request) c' (id : Z)
    (tr : list Client.Effect) :
  Client.sendRequest c req = Client.Ret (c', id, tr) →
  id = Client.nextRequestId c ∧
  Client.requestsInFlight c !! id = None ∧
  Client.requestsInFlight c' =
    <[id := fresh (dom (Client.chans c))]> (Client.requestsInFlight c).
Proof.
  unfold Client.sendRequest. destruct (Client.Id req); simpl; [|done].
  destruct (marshal _); [|done].
  destruct (Client.requestsInFlight c !! Client.nextRequestId c) eqn:Hfree;
    [done|].
  intros [= <- <- <-]. done.
Qed.

Lemma handleReply_requestsInFlight c (rep : Client.Reply) :
  Client.requestsInFlight (Client.handleReply c rep).1 =
    Client.requestsInFlight c.
Proof.
  unfold Client.handleReply.
  destruct (Client.requestsInFlight c !! Client.GetId rep) as [ch|]; [|done].
  by destruct (Client.chans c !! ch) as [[|?]|].
Qed.

(** No step removes or retargets an entry of [requestsInFlight]. *)
Lemma step_keeps_entries c c' (id : Z) (ch : Client.Chan) :
  Client.step c c' →
  Client.requestsInFlight c !! id = Some ch →
  Client.requestsInFlight c' !! id = Some ch.
Proof.
  intros Hstep Hin. inversion Hstep as
    [c0 req c1 id1 tr Hsend | c0 rep c1 o Hrep | c0 re h c1 tr e Hsub
    | c0 s c1 tr Hreg]; subst.
  - apply sendRequest_Ret in Hsend as (-> & Hfree & ->).
    rewrite lookup_insert_ne; [done|]. intros <-. congruence.
  - pose proof (handleReply_requestsInFlight c rep) as Heq.
    rewrite Hrep in Heq. simpl in Heq. by rewrite Heq.
  - unfold Client.Subscribe_ in Hsub.
    destruct (marshal _); by inversion Hsub; subst.
  - unfold Client.RegisterService in Hreg. by inversion Hreg; subst.
Qed.

(** C9: an entry of [requestsInFlight] stays, with the same channel,
    through every later call on the client.  In particular [handleReply],
    when it hands the reply to the caller waiting on the channel, leaves the
    map as it was.  [sendRequestWaitForReply] panics when the incremented
    counter is an id the map still holds, with the duplicate-id panic when
    the request has an id field and marshals. *)
Theorem requestsInFlight_entries_stay c :
  (∀ c', rtc Client.step c c' →
     ∀ id ch, Client.requestsInFlight c !! id = Some ch →
              Client.requestsInFlight c' !! id = Some ch) ∧
  (∀ rep ch,
     Client.requestsInFlight c !! Client.GetId rep = Some ch →
     Client.chans c !! ch = Some Client.Receiving →
     (Client.handleReply c rep).2 = Client.Returned None ∧
     Client.awaitReply (Client.handleReply c rep).1 (Client.GetId rep)
       = Some rep ∧
     Client.requestsInFlight (Client.handleReply c rep).1
       = Client.requestsInFlight c) ∧
  (∀ req,
     is_Some (Client.requestsInFlight c !! Client.nextRequestId c) →
     ∃ p, Client.sendRequest c req = Client.Panicked p) ∧
  (∀ req id0 reqBytes,
     Client.Id req = Some id0 →
     marshal {| Client.Id := Some (Client.nextRequestId c);
                Client.ServiceName := Client.ServiceName req;
                Client.ServiceIdentification :=
                  Client.ServiceIdentification req;
                Client.Method := Client.Method req;
                Client.Data := Client.Data req |} = Some reqBytes →
     is_Some (Client.requestsInFlight c !! Client.nextRequestId c) →
     Client.sendRequest c req
       = Client.Panicked (Client.DuplicateRequestId (Client.nextRequestId c))).
Proof.
  split; [|split; [|split]].
  - intros c' Hsteps. induction Hsteps as [c|c c1 c2 Hstep _ IH];
      intros id ch Hin; [done|].
    apply IH. by eapply step_keeps_entries.
  - intros rep ch Hin Hch. unfold Client.handleReply, Client.awaitReply.
    rewrite Hin, Hch. simpl. rewrite Hin. simpl.
    by rewrite lookup_insert_eq.
  - intros req [ch Hin]. unfold Client.sendRequest.
    destruct (Client.Id req); simpl; [|by eexists].
    destruct (marshal _); [|by eexists]. rewrite Hin. by eexists.
  - intros req id0 reqBytes Hid Hbytes [ch Hin]. unfold Client.sendRequest.
    rewrite Hid. simpl. by rewrite Hbytes, Hin.
Qed.

(** C10: a Request that names a service the client has not registered, or a
    name left with no identification, makes [handleRequest] panic; the panic
    unwinds through [handleRequestReply], which therefore sends no Reply.
    With all four pointer fields of the request set, the panic is the
    no-such-service one. *)
Theorem handleRequest_unknown_service_panics c (req : Client.Request)
    (name : string) :
  Client.ServiceName req = Some name →
  Client.services c !! name = None ∨ Client.services c !! name = Some ∅ →
  (∃ p, Client.handleRequest c req = Client.Panicked p ∧
        Client.handleRequestReply c req = Client.Panicked p) ∧
  (∀ method id sid,
     Client.Method req = Some method →
     Client.Id req = Some id →
     Client.ServiceIdentification req = Some sid →
     Client.handleRequest c req
       = Client.Panicked (Client.NoSuchService id name)).
Proof.
  intros Hname Hunknown.
  assert (∀ p, Client.handleRequest c req = Client.Panicked p →
               Client.handleRequestReply c req = Client.Panicked p) as Hreply.
  { intros p Hp. unfold Client.handleRequestReply. by rewrite Hp. }
  assert (∀ method id sid,
            Client.Method req = Some method →
            Client.Id req = Some id →
            Client.ServiceIdentification req = Some sid →
            Client.handleRequest c req
              = Client.Panicked (Client.NoSuchService id name)) as Hwell.
  { intros method id sid Hm Hid Hsid. unfold Client.handleRequest.
    rewrite Hname, Hm, Hid, Hsid. simpl.
    destruct Hunknown as [-> | ->]; [done|].
    by rewrite map_size_empty. }
  split; [|exact Hwell].
  destruct (Client.Method req) as [method|] eqn:Hm;
    [destruct (Client.Id req) as [id|] eqn:Hid;
     [destruct (Client.ServiceIdentification req) as [sid|] eqn:Hsid|]|].
  - eexists. split; [|apply Hreply]; by eapply Hwell.
  - exists Client.NilDereference.
    assert (Client.handleRequest c req
            = Client.Panicked Client.NilDereference) as Hp
      by (unfold Client.handleRequest; by rewrite Hname, Hm, Hid, Hsid).
    split; [exact Hp|by apply Hreply].
  - exists Client.NilDereference.
    assert (Client.handleRequest c req
            = Client.Panicked Client.NilDereference) as Hp
      by (unfold Client.handleRequest; by rewrite Hname, Hm, Hid).
    split; [exact Hp|by apply Hreply].
  - exists Client.NilDereference.
    assert (Client.handleRequest c req
            = Client.Panicked Client.NilDereference) as Hp
      by (unfold Client.handleRequest; by rewrite Hname, Hm).
    split; [exact Hp|by apply Hreply].
Qed.

End ClientFacts.

(** The client whose counter wraps around to 0 still holds the entry of
    request 0, long answered, and panics on its next request. *)
Lemma requestsInFlight_entries_stay_witness :
  Client.sendRequest Reference.wrapping Reference.ping
    = Client.Panicked (Client.DuplicateRequestId 0).
Proof.
  exact (proj2 (proj2 (proj2
           (requestsInFlight_entries_stay Reference.wrapping)))
           Reference.ping 0%Z [] eq_refl eq_refl
           (ex_intro _ 0 eq_refl)).
Defined.

(** The client that registered [math] only panics on a request to [date]
    and sends no reply. *)
Lemma handleRequest_unknown_service_panics_witness :
  Client.handleRequest Reference.mathClient Reference.askDate
    = Client.Panicked (Client.NoSuchService 7 "date") ∧
  ∃ p, Client.handleRequest Reference.mathClient Reference.askDate
         = Client.Panicked p ∧
       Client.handleRequestReply Reference.mathClient Reference.askDate
         = Client.Panicked p.
Proof.
  destruct (handleRequest_unknown_service_panics Reference.mathClient
              Reference.askDate "date" eq_refl (or_introl eq_refl))
    as [Hpanic Hwell].
  split; [|exact Hpanic].
  exact (Hwell "today" 7%Z "" eq_refl eq_refl eq_refl).
Defined.

(** * Further properties of the broker *)

(** ** Teardown: what it leaves alone *)

Lemma removeElt_snoc (conn : Conn) (l : list Conn) :
  conn ∉ l → removeElt conn (l ++ [conn]) = l.
Proof.
  induction l as [|c l IH]; intros Hnot; simpl.
  - by rewrite decide_True.
  - apply not_elem_of_cons in Hnot as [Hne Hnot].
    rewrite decide_False by done. by rewrite IH.
Qed.

Lemma removeElt_other (conn c : Conn) (l : list Conn) :
  c ≠ conn → c ∈ removeElt conn l ↔ c ∈ l.
Proof.
  intros Hne. induction l as [|x l IH]; simpl; [done|].
  destruct (decide (x = conn)) as [->|Hx].
  - rewrite elem_of_cons. split; [auto|]. intros [?|?]; [congruence|done].
  - rewrite !elem_of_cons, IH. done.
Qed.

Lemma removeElt_NoDup (conn : Conn) (l : list Conn) :
  NoDup l → conn ∉ removeElt conn l.
Proof.
  induction 1 as [|x l Hx Hl IH]; simpl; [apply not_elem_of_nil|].
  destruct (decide (x = conn)) as [->|Hne]; [done|].
  apply not_elem_of_cons. split; [done|exact IH].
Qed.

Lemma removeConnFromMap_absent (conn : Conn) (m : gmap string (list Conn)) :
  (∀ key subs, m !! key = Some subs → conn ∉ subs) →
  removeConnFromMap conn m = (m, []).
Proof.
  intros Habsent. unfold removeConnFromMap. f_equal.
  - apply map_eq. intros key. rewrite map_lookup_imap.
    destruct (m !! key) as [subs|] eqn:Hkey; simpl; [|done].
    by rewrite removeConnFromSubs_absent by eauto.
  - assert (Forall (λ kv, conn ∉ kv.2) (map_to_list m)) as Hall.
    { apply Forall_forall. intros [key subs] Hin. simpl.
      apply elem_of_map_to_list in Hin. eauto. }
    induction Hall as [|[key subs] kvs Hkv _ IH]; simpl; [done|].
    by rewrite removeConnFromSubs_absent, IH.
Qed.

Section IdleConnection.
Context `{!Unmarshal Register, !Unmarshal Request, !Unmarshal Reply,
          !Unmarshal Subscribe, !Unmarshal Publish}.

Lemma handleMessage_error_any_broker (H : Handlers) (conn : Conn)
    (msgBytes : bytes) (msg : Message) (b b' : Broker) :
  is_Some (errorOf (handleMessage H conn msgBytes (Some msg) b)) →
  is_Some (errorOf (handleMessage H conn msgBytes (Some msg) b')).
Proof. rewrite !handleMessage_error. done. Qed.

(** A run of rejected messages followed by a close: the loop breaks in the
    broker it started in, having done nothing but log. *)
Lemma dispatchLoop_only_errors (H : Handlers) (conn : Conn)
    (pre post : list Recv) (r : Recv) (b b0 : Broker) :
  Forall (λ r, closed r = false ∧
               ∃ m, msg_ r = Some m ∧
                    is_Some (errorOf (handleMessage H conn (msgBytes_ r)
                                        (Some m) b)))
         pre →
  closed r = true →
  ∃ tr, dispatchLoop H conn (pre ++ r :: post) b0 = (b0, tr, Broke) ∧
        Forall (λ e, ∃ lvl what, e = EvLog lvl what) tr.
Proof.
  intros Hpre Hclosed. induction Hpre as [|r0 pre (Hc & m & Hm & Herr) _ IH].
  - simpl. rewrite Hclosed. eexists. split; [reflexivity|].
    destruct (err r); repeat constructor; by eexists _, _.
  - change ((r0 :: pre) ++ r :: post) with (r0 :: (pre ++ r :: post)).
    simpl. rewrite Hc, Hm.
    apply (handleMessage_error_any_broker _ _ _ _ _ b0) in Herr.
    destruct (handleMessage_error_frame H conn (msgBytes_ r0) m b0 Herr)
      as (tr0 & e & -> & Htr & _).
    destruct IH as (tr & -> & Hlogs). eexists. split; [reflexivity|].
    repeat apply Forall_app_2; try done.
    + destruct (err r0); repeat constructor; by eexists _, _.
    + destruct Htr as [->| ->]; repeat constructor; by eexists _, _.
    + repeat constructor; by eexists _, _.
Qed.

Lemma teardown_idle (conn : Conn) (b : Broker) :
  conn ∉ connList b →
  connNameMap b !! conn = None →
  servicesConn b !! conn = None →
  connSpies b !! conn = None →
  (∀ key subs,
     subscriberMap b !! key = Some subs ∨
     subscriberMatchMap b !! key = Some subs → conn ∉ subs) →
  teardown conn (set_connList (λ l, l ++ [conn]) b)
    = (b, [EvPublish logCloseConnection (connToJSON conn)]).
Proof.
  intros Hlist Hname Hsvc Hspies Hsubs. rewrite teardown_eq.
  unfold set_connList.
  cbn [connList connNameMap connSpies Services servicesConn reqIds
       subscriberMap subscriberMatchMap svcHeap].
  rewrite (removeConnFromMap_absent conn (subscriberMap b))
    by (intros; eapply Hsubs; eauto).
  rewrite (removeConnFromMap_absent conn (subscriberMatchMap b))
    by (intros; eapply Hsubs; eauto).
  rewrite Hsvc, Hspies. simpl. rewrite removeElt_snoc by done.
  rewrite !delete_id by done. by destruct b.
Qed.

(** A connection that is new to the broker, sends nothing but messages
    for which [handleMessage] returns an error and then closes leaves the
    broker exactly as it was.  Apart from log lines, all [handle] does for
    it is to publish [log.new_connection] at the start and
    [log.close_connection] at the end: it sends no other frame, closes no
    connection and stops no timer. *)
Theorem handle_rejected_connection_restores_broker (H : Handlers)
    (conn : Conn) (pre post : list Recv) (r : Recv) (b : Broker) :
  conn ∉ connList b →
  connNameMap b !! conn = None →
  servicesConn b !! conn = None →
  connSpies b !! conn = None →
  (∀ key subs,
     subscriberMap b !! key = Some subs ∨
     subscriberMatchMap b !! key = Some subs → conn ∉ subs) →
  Forall (λ r, closed r = false ∧
               ∃ m, msg_ r = Some m ∧
                    is_Some (errorOf (handleMessage H conn (msgBytes_ r)
                                        (Some m) b)))
         pre →
  closed r = true →
  ∃ logs,
    handle H conn (pre ++ r :: post) b
      = (b,
         [EvLog Info "[Broker] Connection opened";
          EvPublish logNewConnection (connToJSON conn)]
         ++ logs ++ [EvPublish logCloseConnection (connToJSON conn)],
         Broke) ∧
    Forall (λ e, ∃ lvl what, e = EvLog lvl what) logs.
Proof.
  intros Hlist Hname Hsvc Hspies Hsubs Hpre Hclosed.
  destruct (dispatchLoop_only_errors H conn pre post r b
              (set_connList (λ l, l ++ [conn]) b) Hpre Hclosed)
    as (logs & Hloop & Hlogs).
  exists logs. split; [|exact Hlogs].
  unfold handle. rewrite Hloop. by rewrite (teardown_idle conn b).
Qed.

End IdleConnection.

(** Teardown of one connection removes its own entries from the name,
    service and spy indexes and leaves the entries of every other connection
    in them, and the membership of every other connection in the connection
    list, as they were. *)
Theorem teardown_spares_other_connections (conn c : Conn) (b : Broker) :
  c ≠ conn →
  (connNameMap (teardown conn b).1 !! conn = None ∧
   servicesConn (teardown conn b).1 !! conn = None ∧
   connSpies (teardown conn b).1 !! conn = None) ∧
  (connNameMap (teardown conn b).1 !! c = connNameMap b !! c ∧
   servicesConn (teardown conn b).1 !! c = servicesConn b !! c ∧
   connSpies (teardown conn b).1 !! c = connSpies b !! c ∧
   (c ∈ connList (teardown conn b).1 ↔ c ∈ connList b)) ∧
  (NoDup (connList b) → conn ∉ connList (teardown conn b).1).
Proof.
  intros Hne. rewrite teardown_eq. simpl.
  rewrite !lookup_delete_eq, !lookup_delete_ne by done.
  repeat split; try apply removeElt_other; try done.
  apply removeElt_NoDup.
Qed.

(** ** Teardown: the spy lists *)

Lemma findConn_Some (conn : Conn) (l : list Conn) (i j : nat) :
  findConn conn l i = Some j → i ≤ j ∧ l !! (j - i) = Some conn.
Proof.
  revert i. induction l as [|c l IH]; intros i; simpl; [done|].
  destruct (decide (c = conn)) as [->|Hne].
  - intros [= <-]. by rewrite Nat.sub_diag.
  - intros Hfind. apply IH in Hfind as [Hle Hlook]. split; [lia|].
    by replace (j - i) with (S (j - S i)) by lia.
Qed.

Lemma findConn_None (conn : Conn) (l : list Conn) (i : nat) :
  findConn conn l i = None → conn ∉ l.
Proof.
  revert i. induction l as [|c l IH]; intros i; simpl;
    [intros _; apply not_elem_of_nil|].
  destruct (decide (c = conn)) as [->|Hne]; [done|].
  intros Hfind. apply not_elem_of_cons. split; [done|by eapply IH].
Qed.

Lemma removeSpy_spec (conn : Conn) (s : service) :
  Name (removeSpy conn s) = Name s ∧
  Identification (removeSpy conn s) = Identification s ∧
  SvcConn (removeSpy conn s) = SvcConn s ∧
  (conn ∈ Spies s → Spies s ≡ₚ conn :: Spies (removeSpy conn s)) ∧
  (conn ∉ Spies s → removeSpy conn s = s).
Proof.
  unfold removeSpy.
  destruct (findConn conn (Spies s) 0) as [j|] eqn:Hfind; simpl.
  - apply findConn_Some in Hfind as [_ Hj]. rewrite Nat.sub_0_r in Hj.
    repeat split; try done.
    + intros _. rewrite swap_remove_Permutation
        by (by eapply lookup_lt_Some).
      by apply delete_Permutation.
    + intros Hnot. destruct Hnot. by eapply list_elem_of_lookup_2.
  - apply findConn_None in Hfind. by repeat split.
Qed.

Lemma unspy_lookup (conn : Conn) (ps : list SvcPtr)
    (heap : gmap SvcPtr service) (p : SvcPtr) :
  NoDup ps →
  unspy conn ps heap !! p =
    if decide (p ∈ ps) then removeSpy conn <$> heap !! p else heap !! p.
Proof.
  intros Hnd. revert heap. unfold unspy.
  induction Hnd as [|q ps Hq _ IH]; intros heap; cbn [foldl].
  - destruct (decide (p ∈ [])) as [Hin|_]; [by apply elem_of_nil in Hin|done].
  - rewrite IH. destruct (decide (p = q)) as [->|Hne].
    + rewrite decide_False by done. rewrite lookup_alter_eq.
      rewrite decide_True; [done|apply list_elem_of_here].
    + rewrite lookup_alter_ne by done.
      destruct (decide (p ∈ ps)) as [Hin|Hnot].
      * rewrite decide_True; [done|by apply list_elem_of_further].
      * rewrite decide_False; [done|].
        intros Hin. apply elem_of_cons in Hin as [?|?]; done.
Qed.

(** Teardown takes the closing connection out of the spy list of every
    service it spied, once, and keeps the other spies and the rest of the
    service; the services it did not spy are untouched. *)
Theorem teardown_unspies_services (conn : Conn) (b : Broker) :
  NoDup (default [] (connSpies b !! conn)) →
  (∀ p s,
     p ∈ default [] (connSpies b !! conn) →
     svcHeap b !! p = Some s →
     ∃ s', svcHeap (teardown conn b).1 !! p = Some s' ∧
           Name s' = Name s ∧ Identification s' = Identification s ∧
           SvcConn s' = SvcConn s ∧
           (conn ∈ Spies s → Spies s ≡ₚ conn :: Spies s') ∧
           (conn ∉ Spies s → Spies s' = Spies s)) ∧
  (∀ p, p ∉ default [] (connSpies b !! conn) →
        svcHeap (teardown conn b).1 !! p = svcHeap b !! p).
Proof.
  intros Hnd. rewrite teardown_eq. simpl. split.
  - intros p s Hin Hs. rewrite (unspy_lookup conn _ _ p Hnd).
    rewrite decide_True by done. rewrite Hs. simpl.
    exists (removeSpy conn s).
    destruct (removeSpy_spec conn s) as (Hn & Hi & Hc & Hin' & Hnot).
    repeat split; try done. intros Habs. by rewrite Hnot.
  - intros p Hnot. rewrite (unspy_lookup conn _ _ p Hnd).
    by rewrite decide_False.
Qed.

(** ** A run of replies *)

Lemma stoppedTimers_app (tr1 tr2 : list Effect) :
  stoppedTimers (tr1 ++ tr2) = stoppedTimers tr1 ++ stoppedTimers tr2.
Proof. apply omap_app. Qed.

Lemma stoppedTimers_SendRaw (raw : bytes) (cs : list Conn) :
  stoppedTimers (map (λ c, EvSendRaw c raw) cs) = [].
Proof. by induction cs. Qed.

(** Whatever replies arrive, from whatever connections, each one that is
    forwarded consumes one tracker: the timers stopped and the trackers left
    add up to the trackers there were, no tracker is added or changed, and
    no other table of the broker is touched. *)
Theorem handleReplies_consumes_trackers
    (rs : list (Conn * bytes * Reply)) (b : Broker) :
  length (stoppedTimers (handleReplies rs b).2)
    + size (reqIds (handleReplies rs b).1) = size (reqIds b) ∧
  reqIds (handleReplies rs b).1 ⊆ reqIds b ∧
  (handleReplies rs b).1
    = set_reqIds (λ _, reqIds (handleReplies rs b).1) b.
Proof.
  revert b. induction rs as [|[[conn raw] rep] rs IH]; intros b; simpl.
  - repeat split; [done|by destruct b].
  - destruct (reqIds b !! Id rep) as [t|] eqn:Ht.
    + rewrite (handleReply_tracked b conn raw rep t Ht).
      destruct (IH (set_reqIds (delete (Id rep)) b)) as (Hsize & Hsub & Hb).
      destruct (handleReplies rs (set_reqIds (delete (Id rep)) b))
        as [b2 tr2]. simpl in *.
      rewrite !stoppedTimers_app, stoppedTimers_SendRaw. simpl.
      rewrite map_size_delete_Some in Hsize by done.
      repeat split.
      * assert (size (reqIds b) ≠ 0) as Hpos.
        { intros Hz. apply map_size_empty_iff in Hz. by rewrite Hz in Ht. }
        lia.
      * etrans; [exact Hsub|apply delete_subseteq].
      * rewrite Hb. by destruct b.
    + rewrite (handleReply_untracked b conn raw rep Ht).
      destruct (IH b) as (Hsize & Hsub & Hb).
      by destruct (handleReplies rs b) as [b2 tr2].
Qed.

(** ** The listener *)

Lemma acceptLoop_prefix (pre rest : list acceptResult) :
  Forall (λ a, a ≠ AcceptNetError false) pre →
  goHandles (acceptLoop (pre ++ rest)).1 =
    omap (λ a, match a with
               | Accepted c => Some (Some c)
               | AcceptError => Some None
               | AcceptNetError _ => None
               end) pre
    ++ goHandles (acceptLoop rest).1 ∧
  (acceptLoop (pre ++ rest)).2 = (acceptLoop rest).2.
Proof.
  induction 1 as [|a pre Ha _ [IH1 IH2]]; [done|].
  change ((a :: pre) ++ rest) with (a :: (pre ++ rest)). simpl.
  destruct (acceptLoop (pre ++ rest)) as [tr broke].
  destruct a as [c|[|]|]; simpl in *; try done; by rewrite IH1.
Qed.

(** [listenAndServe] returns the error of [net.Listen] and starts nothing
    when listening fails.  Otherwise it starts one [handle] per accepted
    connection, in order, and one on a nil connection per [Accept] error
    that is no [net.Error]; it skips temporary errors; at the first
    permanent one it stops accepting and returns nil. *)
Theorem listenAndServe_accepts (pre post : list acceptResult) :
  Forall (λ a, a ≠ AcceptNetError false) pre →
  let started :=
    omap (λ a, match a with
               | Accepted c => Some (Some c)
               | AcceptError => Some None
               | AcceptNetError _ => None
               end) pre in
  (listenAndServe None pre).2 = None ∧
  goHandles (listenAndServe None pre).1 = started ∧
  (listenAndServe None (pre ++ AcceptNetError false :: post)).2
    = Some None ∧
  goHandles (listenAndServe None (pre ++ AcceptNetError false :: post)).1
    = started ∧
  ∀ e accepts,
    (listenAndServe (Some e) accepts).2 = Some (Some e) ∧
    goHandles (listenAndServe (Some e) accepts).1 = [].
Proof.
  intros Hpre started. unfold listenAndServe.
  destruct (acceptLoop_prefix pre [] Hpre) as [H1 H2].
  destruct (acceptLoop_prefix pre (AcceptNetError false :: post) Hpre)
    as [H3 H4].
  rewrite app_nil_r in H1, H2. simpl in H1, H2, H3, H4.
  rewrite app_nil_r in H1, H3.
  destruct (acceptLoop pre) as [tr1 broke1].
  destruct (acceptLoop (pre ++ AcceptNetError false :: post))
    as [tr2 broke2].
  simpl in *. subst broke1 broke2. by repeat split.
Qed.

(** ** The payload dump *)

Lemma string_append_assoc (s1 s2 s3 : string) :
  (s1 +:+ s2) +:+ s3 = s1 +:+ (s2 +:+ s3).
Proof.
  induction s1 as [|a s1 IH]; [done|].
  change (String a ((s1 +:+ s2) +:+ s3) = String a (s1 +:+ (s2 +:+ s3))).
  by rewrite IH.
Qed.

Lemma string_append_length (s1 s2 : string) :
  String.length (s1 +:+ s2) = String.length s1 + String.length s2.
Proof.
  induction s1 as [|a s1 IH]; [done|].
  change (S (String.length (s1 +:+ s2))
          = S (String.length s1 + String.length s2)).
  by rewrite IH.
Qed.

Lemma string_append_empty_r (s : string) : s +:+ "" = s.
Proof.
  induction s as [|a s IH]; [done|].
  change (String a (s +:+ "") = String a s). by rewrite IH.
Qed.

Lemma unmarshalErrorDump_cons_acc (acc : string) (msg : bytes) :
  foldl (λ dbg b, dbg +:+ hexByte b) acc msg
    = acc +:+ foldl (λ dbg b, dbg +:+ hexByte b) "" msg.
Proof.
  revert acc. induction msg as [|b msg IH]; intros acc; simpl.
  - by rewrite string_append_empty_r.
  - rewrite (IH (acc +:+ hexByte b)), (IH ("" +:+ hexByte b)).
    change ("" +:+ hexByte b) with (hexByte b). by rewrite string_append_assoc.
Qed.

Lemma unmarshalErrorDump_cons (b : byte) (msg : bytes) :
  unmarshalErrorDump (b :: msg) = hexByte b +:+ unmarshalErrorDump msg.
Proof.
  unfold unmarshalErrorDump. cbn [foldl].
  change ("" +:+ hexByte b) with (hexByte b).
  apply unmarshalErrorDump_cons_acc.
Qed.

Lemma parseDump_hexByte (b : byte) (rest : string) :
  Reference.parseDump (hexByte b +:+ rest)
    = bs ← Reference.parseDump rest; Some (b :: bs).
Proof. by destruct b. Qed.

Lemma parseDump_unmarshalErrorDump (msg : bytes) :
  Reference.parseDump (unmarshalErrorDump msg) = Some msg.
Proof.
  induction msg as [|b msg IH]; [done|].
  rewrite unmarshalErrorDump_cons, parseDump_hexByte, IH. done.
Qed.

(** The dump [logUnmarshalError] logs takes five characters per byte of the
    payload and tells payloads apart: equal dumps come from equal
    payloads. *)
Theorem unmarshalErrorDump_faithful (msg : bytes) :
  String.length (unmarshalErrorDump msg) = 5 * length msg ∧
  ∀ msg', unmarshalErrorDump msg = unmarshalErrorDump msg' → msg = msg'.
Proof.
  split.
  - induction msg as [|b msg IH]; [done|].
    rewrite unmarshalErrorDump_cons, string_append_length, IH. simpl. lia.
  - intros msg' Heq. apply (f_equal Reference.parseDump) in Heq.
    rewrite !parseDump_unmarshalErrorDump in Heq. by injection Heq.
Qed.

(** * Further properties of the client *)

Section ReceiveFacts.
Context `{!RegexpLib, !Client.ServiceImpl}.
Context `{!Marshal Client.Request, !Marshal Client.Reply}.
Context `{!Unmarshal Client.Request, !Unmarshal Client.Reply,
          !Unmarshal Client.Publish}.
Context {World : Type}.
Implicit Types c : Client.client World.
Implicit Types w : World.

(** The cases of the [switch] of the client's [handleMessage]. *)
Ltac client_cases m :=
  unfold Client.handleMessage; simpl;
  destruct (Client.Type_ m) as [t|]; simpl; [|try done];
  repeat (destruct (decide _) as [?Htag|?Htag]; simpl);
  repeat match goal with
         | |- context [unmarshal (A := ?T) ?x] =>
             destruct (unmarshal (A := T) x) eqn:?Hpayload; simpl
         end.

Lemma client_handleReply_fields c (rep : Client.Reply) :
  Client.conn (Client.handleReply c rep).1 = Client.conn c ∧
  Client.services (Client.handleReply c rep).1 = Client.services c ∧
  Client.subscribers (Client.handleReply c rep).1 = Client.subscribers c ∧
  Client.currentRequestId (Client.handleReply c rep).1
    = Client.currentRequestId c ∧
  Client.requestsInFlight (Client.handleReply c rep).1
    = Client.requestsInFlight c.
Proof.
  unfold Client.handleReply.
  destruct (Client.requestsInFlight c !! Client.GetId rep) as [ch|]; [|done].
  by destruct (Client.chans c !! ch) as [[|?]|].
Qed.

(** Handling a received message never registers a service, adds a
    subscriber, allocates a request id or touches [requestsInFlight].  Only
    a Request makes the client send, only a Publish runs subscriber
    handlers, only a Reply changes the client; a Subscribe, a Register or a
    message of unknown type is answered with an error and nothing else. *)
Theorem client_handleMessage_effects c (m : Client.Message) w c'
    (w' : World) (tr : list Client.Effect) (o : Client.replyOutcome) :
  Client.handleMessage c (Some m) w = Client.Ret (c', w', tr, o) →
  (Client.conn c' = Client.conn c ∧
   Client.services c' = Client.services c ∧
   Client.subscribers c' = Client.subscribers c ∧
   Client.currentRequestId c' = Client.currentRequestId c ∧
   Client.requestsInFlight c' = Client.requestsInFlight c) ∧
  (Client.Type_ m ≠ Some Client.Message_Request → tr = []) ∧
  (Client.Type_ m ≠ Some Client.Message_Publish → w' = w) ∧
  (Client.Type_ m ≠ Some Client.Message_Reply →
     c' = c ∧ ∃ e, o = Client.Returned e) ∧
  (Client.Type_ m ≠ Some Client.Message_Request →
   Client.Type_ m ≠ Some Client.Message_Publish →
   Client.Type_ m ≠ Some Client.Message_Reply →
     c' = c ∧ w' = w ∧ tr = [] ∧ ∃ e, o = Client.Returned (Some e)).
Proof.
  client_cases m; subst;
    try (intros [= <- <- <- <-]; repeat split; try done;
         try (intros; congruence); by eauto).
  - destruct (Client.handleRequestReply c _) as [tr0|p]; simpl; [|done].
    intros [= <- <- <- <-]. repeat split; try done;
      try (intros; congruence); by eauto.
  - pose proof (client_handleReply_fields c r) as Hfields.
    destruct (Client.handleReply c r) as [c1 o1]. simpl in Hfields.
    intros [= <- <- <- <-]. repeat split; try apply Hfields; try done;
      try (intros; congruence); by eauto.
Qed.

Lemma client_handleMessage_Reply c (m : Client.Message) w
    (rep : Client.Reply) :
  Client.Type_ m = Some Client.Message_Reply →
  unmarshal (A := Client.Reply) (Client.Content m) = Some rep →
  Client.handleMessage c (Some m) w =
    Client.Ret ((Client.handleReply c rep).1, w, [],
                (Client.handleReply c rep).2).
Proof.
  intros Htype Hrep. unfold Client.handleMessage. simpl. rewrite Htype.
  simpl. rewrite Hrep. by destruct (Client.handleReply c rep).
Qed.

(** The reply to a request finds its caller: after [sendRequestWaitForReply]
    sent a request under some id, the caller has no reply yet; handling a
    Reply message with that id hands the reply to the caller and sends
    nothing.  A second Reply with the same id is never taken: the call
    handling it does not return. *)
Theorem client_request_reply_round_trip c (req : Client.Request) c1
    (id : Z) (tr : list Client.Effect) (m : Client.Message)
    (rep : Client.Reply) w :
  Client.sendRequest c req = Client.Ret (c1, id, tr) →
  Client.Type_ m = Some Client.Message_Reply →
  unmarshal (A := Client.Reply) (Client.Content m) = Some rep →
  Client.GetId rep = id →
  Client.awaitReply c1 id = None ∧
  ∃ c2, Client.handleMessage c1 (Some m) w
          = Client.Ret (c2, w, [], Client.Returned None) ∧
        Client.awaitReply c2 id = Some rep ∧
        Client.handleMessage c2 (Some m) w
          = Client.Ret (c2, w, [], Client.Blocked).
Proof.
  intros Hsend Htype Hrep Hid. unfold Client.sendRequest in Hsend.
  destruct (Client.Id req); simpl in Hsend; [|done].
  destruct (marshal _); [|done].
  destruct (Client.requestsInFlight c !! Client.nextRequestId c) eqn:Hfree;
    [done|].
  injection Hsend as <- <- <-.
  rewrite !(client_handleMessage_Reply _ m w rep Htype Hrep).
  unfold Client.awaitReply, Client.handleReply. simpl. rewrite Hid.
  rewrite !lookup_insert_eq. simpl. rewrite !lookup_insert_eq. simpl.
  split; [done|]. eexists. split; [reflexivity|]. simpl.
  rewrite !lookup_insert_eq. simpl. rewrite !lookup_insert_eq.
  split; [done|].
  rewrite (client_handleMessage_Reply _ m w rep Htype Hrep).
  unfold Client.handleReply. simpl. rewrite Hid, lookup_insert_eq. simpl.
  by rewrite lookup_insert_eq.
Qed.

Lemma receiveLoop_prefix (pre rest : list Client.Recv) c w c1
    (w1 : World) (tr1 : list Client.Effect) :
  Client.receiveLoop pre c w = (c1, w1, tr1, Client.Receiving_) →
  Client.receiveLoop (pre ++ rest) c w =
    ((Client.receiveLoop rest c1 w1).1.1.1,
     (Client.receiveLoop rest c1 w1).1.1.2,
     tr1 ++ (Client.receiveLoop rest c1 w1).1.2,
     (Client.receiveLoop rest c1 w1).2).
Proof.
  revert c w tr1. induction pre as [|r pre IH]; intros c w tr1; simpl.
  - intros [= <- <- <-]. by destruct (Client.receiveLoop rest c w) as [[[??]?]?].
  - destruct (Client.closed r); [done|].
    destruct (Client.handleMessage c (Client.msg r) w)
      as [[[[c0 w0] tr0] [e|]]|p]; [|done|done].
    destruct (Client.receiveLoop pre c0 w0) as [[[c3 w3] tr3] e3] eqn:Hpre.
    intros [= -> -> <- ->].
    rewrite (IH c0 w0 tr3 Hpre). simpl. by rewrite app_assoc.
Qed.

Lemma handleRequestReply_unknown_service c (req : Client.Request)
    (name : string) :
  Client.ServiceName req = Some name →
  Client.services c !! name = None ∨ Client.services c !! name = Some ∅ →
  ∃ p, Client.handleRequestReply c req = Client.Panicked p.
Proof.
  intros Hname Hunknown.
  unfold Client.handleRequestReply, Client.handleRequest. rewrite Hname.
  simpl. destruct (Client.Method req); simpl; [|by eexists].
  destruct (Client.Id req); simpl; [|by eexists].
  destruct (Client.ServiceIdentification req); simpl; [|by eexists].
  destruct Hunknown as [-> | ->]; [by eexists|].
  rewrite map_size_empty. simpl. by eexists.
Qed.

(** What ends the client's receive loop, after any run of messages it got
    through: a closed stream ends it in [c.Close()]; a result that is not
    closed but carries no message, or a Request naming a service the client
    has not registered, ends it in a panic; a Reply to a request that
    already got its reply blocks it for good.  In each case the messages
    that follow are never handled. *)
Theorem client_receiveLoop_ends (pre post : list Client.Recv)
    (r : Client.Recv) c w c1 (w1 : World) (tr1 : list Client.Effect) :
  Client.receiveLoop pre c w = (c1, w1, tr1, Client.Receiving_) →
  (Client.closed r = true →
     Client.receiveLoop (pre ++ r :: post) c w
       = (c1, w1, tr1, Client.Closing)) ∧
  (Client.closed r = false → Client.msg r = None →
     Client.receiveLoop (pre ++ r :: post) c w
       = (c1, w1, tr1, Client.Crashed Client.NilDereference)) ∧
  (∀ m req name,
     Client.closed r = false → Client.msg r = Some m →
     Client.Type_ m = Some Client.Message_Request →
     unmarshal (A := Client.Request) (Client.Content m) = Some req →
     Client.ServiceName req = Some name →
     Client.services c1 !! name = None ∨
     Client.services c1 !! name = Some ∅ →
     ∃ p, Client.receiveLoop (pre ++ r :: post) c w
            = (c1, w1, tr1, Client.Crashed p)) ∧
  (∀ m rep ch rep0,
     Client.closed r = false → Client.msg r = Some m →
     Client.Type_ m = Some Client.Message_Reply →
     unmarshal (A := Client.Reply) (Client.Content m) = Some rep →
     Client.requestsInFlight c1 !! Client.GetId rep = Some ch →
     Client.chans c1 !! ch = Some (Client.Received rep0) →
     Client.receiveLoop (pre ++ r :: post) c w
       = (c1, w1, tr1, Client.Stuck)).
Proof.
  intros Hpre. rewrite (receiveLoop_prefix pre (r :: post) _ _ _ _ _ Hpre).
  repeat split.
  - intros Hc. simpl. rewrite Hc. simpl. by rewrite app_nil_r.
  - intros Hc Hm. simpl. rewrite Hc, Hm. simpl. by rewrite app_nil_r.
  - intros m req name Hc Hm Htype Hreq Hname Hunknown.
    destruct (handleRequestReply_unknown_service c1 req name Hname Hunknown)
      as [p Hp].
    exists p. simpl. rewrite Hc, Hm. unfold Client.handleMessage. simpl.
    rewrite Htype. simpl. rewrite Hreq, Hp.
    simpl. by rewrite app_nil_r.
  - intros m rep ch rep0 Hc Hm Htype Hrep Hch Hstate.
    simpl. rewrite Hc, Hm.
    rewrite (client_handleMessage_Reply c1 m w1 rep Htype Hrep).
    unfold Client.handleReply. rewrite Hch, Hstate. simpl.
    by rewrite app_nil_r.
Qed.

End ReceiveFacts.

Section RequestFacts.
Context `{!RegexpLib, !Client.ServiceImpl}.
Context `{!Marshal Client.Request, !Marshal Client.Register}.
Context {World : Type}.
Implicit Types c : Client.client World.

(** Once a service is registered, a Request naming it with its
    identification reaches its [handleRequest]; a Request naming it with an
    identification that is not registered is passed to [handleRequest] of a
    nil service; requests to other names are handled as before. *)
Theorem client_registered_service_gets_requests c
    (s : Client.service) (req : Client.Request) (name method sid : string)
    (id : Z) :
  Client.ServiceName req = Some name →
  Client.Method req = Some method →
  Client.Id req = Some id →
  Client.ServiceIdentification req = Some sid →
  let c' := (Client.RegisterService c s).1 in
  (name = Client.service_Name s →
   sid = Client.service_Identification s →
   Client.handleRequest c' req
     = Client.service_handleRequest (Some s) req method) ∧
  (name = Client.service_Name s →
   sid ≠ Client.service_Identification s →
   Client.services c !! name ≫= (λ idents, idents !! sid) = None →
   Client.handleRequest c' req
     = Client.service_handleRequest None req method) ∧
  (name ≠ Client.service_Name s →
   Client.handleRequest c' req = Client.handleRequest c req).
Proof.
  intros Hname Hmethod Hid Hsid c'. subst c'.
  unfold Client.handleRequest, Client.RegisterService.
  rewrite Hname, Hmethod, Hid, Hsid. simpl.
  assert ((if decide (sid ≠ "") then sid else "") = sid) as ->
    by (destruct (decide (sid ≠ "")) as [|Hn]; [done|];
        by destruct (decide (sid = ""))).
  repeat split.
  - intros -> ->. rewrite lookup_insert_eq.
    rewrite decide_False; [by rewrite lookup_insert_eq|].
    apply map_size_non_empty_iff, insert_non_empty.
  - intros -> Hne Hnone. rewrite lookup_insert_eq.
    rewrite decide_False
      by apply map_size_non_empty_iff, insert_non_empty.
    rewrite lookup_insert_ne by done.
    destruct (Client.services c !! Client.service_Name s) as [idents|];
      simpl in *; [by rewrite Hnone|done].
  - intros Hne. by rewrite lookup_insert_ne.
Qed.

Lemma sendRequest_Ret_client c (req : Client.Request) c1 (id : Z)
    (tr : list Client.Effect) :
  Client.sendRequest c req = Client.Ret (c1, id, tr) →
  id = Client.nextRequestId c ∧
  Client.requestsInFlight c !! id = None ∧
  Client.currentRequestId c1 = id ∧
  Client.requestsInFlight c1 =
    <[id := fresh (dom (Client.chans c))]> (Client.requestsInFlight c) ∧
  Client.chans c1 =
    <[fresh (dom (Client.chans c)) := Client.Receiving]> (Client.chans c).
Proof.
  unfold Client.sendRequest. destruct (Client.Id req); simpl; [|done].
  destruct (marshal _); [|done].
  destruct (Client.requestsInFlight c !! Client.nextRequestId c) eqn:Hfree;
    [done|].
  intros [= <- <- <-]. done.
Qed.

(** Two requests in flight do not get in each other's way: they have
    different ids, and when the reply to the second one arrives first it is
    handed to the second caller while the first keeps waiting; the reply to
    the first one then reaches the first caller. *)
Theorem client_replies_out_of_order c (reqA reqB : Client.Request)
    c1 c2 (idA idB : Z) (trA trB : list Client.Effect)
    (repA repB : Client.Reply) :
  Client.sendRequest c reqA = Client.Ret (c1, idA, trA) →
  Client.sendRequest c1 reqB = Client.Ret (c2, idB, trB) →
  Client.GetId repA = idA →
  Client.GetId repB = idB →
  let c3 := (Client.handleReply c2 repB).1 in
  let c4 := (Client.handleReply c3 repA).1 in
  idA ≠ idB ∧
  (Client.awaitReply c3 idB = Some repB ∧ Client.awaitReply c3 idA = None) ∧
  (Client.awaitReply c4 idB = Some repB ∧
   Client.awaitReply c4 idA = Some repA).
Proof.
  intros HA HB HidA HidB.
  apply sendRequest_Ret_client in HA as (HnA & HfreeA & HcurA & HinA & HchA).
  apply sendRequest_Ret_client in HB as (HnB & HfreeB & HcurB & HinB & HchB).
  set (chA := fresh (dom (Client.chans c))) in *.
  set (chB := fresh (dom (Client.chans c1))) in *.
  assert (idA ≠ idB) as Hids.
  { intros Heq. rewrite HinA, <- Heq, lookup_insert_eq in HfreeB. done. }
  assert (chA ≠ chB) as Hchs.
  { intros Heq. pose proof (is_fresh (dom (Client.chans c1))) as Hfresh.
    fold chB in Hfresh. rewrite <- Heq, HchA in Hfresh.
    apply Hfresh, elem_of_dom. rewrite lookup_insert_eq. by eexists. }
  assert (Client.requestsInFlight c2 !! idA = Some chA) as HlookA
    by (rewrite HinB, lookup_insert_ne, HinA, lookup_insert_eq; done).
  assert (Client.requestsInFlight c2 !! idB = Some chB) as HlookB
    by (by rewrite HinB, lookup_insert_eq).
  assert (Client.chans c2 !! chA = Some Client.Receiving) as HstA
    by (rewrite HchB, lookup_insert_ne, HchA, lookup_insert_eq; done).
  assert (Client.chans c2 !! chB = Some Client.Receiving) as HstB
    by (by rewrite HchB, lookup_insert_eq).
  intros c3 c4. subst c4 c3. unfold Client.handleReply, Client.awaitReply.
  rewrite HidB, HlookB, HstB. simpl. rewrite HidA, HlookA, HlookB. simpl.
  rewrite lookup_insert_eq, lookup_insert_ne, HstA by done. simpl.
  rewrite HlookA, HlookB. simpl.
  rewrite lookup_insert_eq, lookup_insert_ne, lookup_insert_eq by done.
  done.
Qed.

End RequestFacts.

(** * Scenarios for the further properties *)

(** Connection 9 sends a message of unknown type and closes. *)
Lemma handle_rejected_connection_restores_broker_witness :
  ∃ logs,
    handle Reference.handlers 9
        (take 1 Reference.session ++ drop 2 Reference.session)
        Reference.oneInFlight
      = (Reference.oneInFlight,
         [EvLog Info "[Broker] Connection opened";
          EvPublish logNewConnection (connToJSON 9)]
         ++ logs ++ [EvPublish logCloseConnection (connToJSON 9)],
         Broke) ∧
    Forall (λ e, ∃ lvl what, e = EvLog lvl what) logs.
Proof.
  apply (handle_rejected_connection_restores_broker Reference.handlers 9
           (take 1 Reference.session) []
           {| closed := true; msgBytes_ := []; msg_ := None; err := None |}
           Reference.oneInFlight); try reflexivity.
  - vm_compute. intros Hin.
    repeat (apply elem_of_cons in Hin as [Heq|Hin]; [discriminate|]).
    by apply elem_of_nil in Hin.
  - intros key subs [Hsubs|Hsubs]; vm_compute in Hsubs; discriminate.
  - repeat constructor. eexists. split; [reflexivity|]. by eexists.
Defined.

Lemma teardown_spares_other_connections_witness :
  connSpies (teardown 5 Reference.mathBroker).1 !! 7 = Some [0] ∧
  connNameMap (teardown 5 Reference.mathBroker).1 !! 5 = None ∧
  (7 ∈ connList (teardown 5 Reference.mathBroker).1).
Proof.
  assert (7 ≠ 5) as Hne by done.
  destruct (teardown_spares_other_connections 5 7 Reference.mathBroker Hne)
    as ((Hname & _ & _) & (_ & _ & Hspies & Hlist) & _).
  split; [|split].
  - rewrite Hspies. reflexivity.
  - exact Hname.
  - apply Hlist. vm_compute.
    do 2 apply list_elem_of_further. apply list_elem_of_here.
Defined.

Lemma teardown_unspies_services_witness :
  ∃ s', svcHeap (teardown 9 Reference.spiedBroker).1 !! 0 = Some s' ∧
        Name s' = "math" ∧ [7; 9; 8] ≡ₚ 9 :: Spies s'.
Proof.
  assert (NoDup (default [] (connSpies Reference.spiedBroker !! 9)))
    as Hnd by (vm_compute; repeat constructor; apply not_elem_of_nil).
  destruct (teardown_unspies_services 9 Reference.spiedBroker Hnd)
    as [Hspied _].
  destruct (Hspied 0 {| Name := "math"; Identification := ""; SvcConn := 5;
                        Spies := [7; 9; 8] |})
    as (s' & Hs' & Hname & _ & _ & Hperm & _).
  - vm_compute. apply list_elem_of_here.
  - reflexivity.
  - exists s'. split; [exact Hs'|]. split; [exact Hname|].
    apply Hperm. simpl. apply list_elem_of_further, list_elem_of_here.
Defined.

Lemma listenAndServe_accepts_witness :
  (listenAndServe None Reference.accepted).2 = None ∧
  goHandles (listenAndServe None Reference.accepted).1
    = [Some 1; None; Some 2] ∧
  (listenAndServe None
     (Reference.accepted ++ AcceptNetError false :: [Accepted 3])).2
    = Some None ∧
  goHandles (listenAndServe None
               (Reference.accepted ++ AcceptNetError false :: [Accepted 3])).1
    = [Some 1; None; Some 2].
Proof.
  assert (Forall (λ a, a ≠ AcceptNetError false) Reference.accepted)
    as Hpre by (by repeat constructor).
  pose proof (listenAndServe_accepts Reference.accepted [Accepted 3] Hpre)
    as Hrun.
  cbv zeta in Hrun. destruct Hrun as (H1 & H2 & H3 & H4 & _).
  split; [exact H1|]. split; [exact H2|]. split; [exact H3|exact H4].
Defined.

Lemma client_handleMessage_effects_witness :
  Client.handleMessage Reference.mathClient
    (Some Reference.subscribeMessage) []
    = Client.Ret (Reference.mathClient, ([] : Reference.World), [],
                  Client.Returned
                    (Some "Client received unsupported message type")) ∧
  (Reference.mathClient = Reference.mathClient ∧
   ([] : Reference.World) = [] ∧ ([] : list Client.Effect) = [] ∧
   ∃ e, Client.Returned (Some "Client received unsupported message type")
        = Client.Returned (Some e)).
Proof.
  split; [reflexivity|].
  apply (client_handleMessage_effects Reference.mathClient
           Reference.subscribeMessage [] Reference.mathClient [] []
           (Client.Returned (Some "Client received unsupported message type"))
           eq_refl); discriminate.
Defined.

Lemma client_request_reply_round_trip_witness :
  ∃ c1 c2 tr,
    Client.sendRequest Reference.mathClient Reference.ping
      = Client.Ret (c1, 42%Z, tr) ∧
    Client.awaitReply c1 42 = None ∧
    Client.handleMessage c1 (Some Reference.replyMessage42)
        ([] : Reference.World)
      = Client.Ret (c2, [], [], Client.Returned None) ∧
    Client.awaitReply c2 42
      = Some {| Client.RepId := Some 42%Z; Client.RepData := [x03];
                Client.Error := None |} ∧
    Client.handleMessage c2 (Some Reference.replyMessage42)
        ([] : Reference.World)
      = Client.Ret (c2, [], [], Client.Blocked).
Proof.
  assert (∃ c1 tr, Client.sendRequest Reference.mathClient Reference.ping
                   = Client.Ret (c1, 42%Z, tr)) as (c1 & tr & Hsend)
    by (eexists _, _; reflexivity).
  destruct (client_request_reply_round_trip Reference.mathClient
              Reference.ping c1 42%Z tr Reference.replyMessage42
              {| Client.RepId := Some 42%Z; Client.RepData := [x03];
                 Client.Error := None |}
              ([] : Reference.World) Hsend eq_refl eq_refl eq_refl)
    as (Hwait & c2 & Hfirst & Hgot & Hsecond).
  exists c1, c2, tr. split; [exact Hsend|]. split; [exact Hwait|].
  split; [exact Hfirst|]. split; [exact Hgot|exact Hsecond].
Defined.

Lemma client_receiveLoop_ends_witness :
  Client.receiveLoop
    ([] ++ Reference.received 3 [x00] :: [Reference.received 3 [x00]])
    Reference.wrapping ([] : Reference.World)
    = (Reference.wrapping, [], [], Client.Stuck).
Proof.
  exact (proj2 (proj2 (proj2
           (client_receiveLoop_ends [] [Reference.received 3 [x00]]
              (Reference.received 3 [x00]) Reference.wrapping
              ([] : Reference.World) Reference.wrapping [] [] eq_refl)))
           Reference.replyMessage0
           {| Client.RepId := Some 0%Z; Client.RepData := [];
              Client.Error := None |}
           0 (Reference.pong 0)
           eq_refl eq_refl eq_refl eq_refl eq_refl eq_refl).
Defined.

Lemma client_registered_service_gets_requests_witness :
  Client.handleRequest
    (Client.RegisterService Reference.mathClient ("date", "")).1
    Reference.askDate
    = Client.Ret ([], None).
Proof.
  exact (proj1 (client_registered_service_gets_requests
                  Reference.mathClient ("date", "") Reference.askDate
                  "date" "today" "" 7%Z eq_refl eq_refl eq_refl eq_refl)
           eq_refl eq_refl).
Defined.

Lemma client_replies_out_of_order_witness :
  ∃ c1 c2 trA trB,
    Client.sendRequest Reference.mathClient Reference.ping
      = Client.Ret (c1, 42%Z, trA) ∧
    Client.sendRequest c1 Reference.ping = Client.Ret (c2, 43%Z, trB) ∧
    Client.awaitReply (Client.handleReply c2 (Reference.pong 43)).1 43
      = Some (Reference.pong 43) ∧
    Client.awaitReply (Client.handleReply c2 (Reference.pong 43)).1 42
      = None.
Proof.
  assert (∃ c1 trA, Client.sendRequest Reference.mathClient Reference.ping
                    = Client.Ret (c1, 42%Z, trA)) as (c1 & trA & HA)
    by (eexists _, _; reflexivity).
  assert (∃ c2 trB, Client.sendRequest c1 Reference.ping
                    = Client.Ret (c2, 43%Z, trB)) as (c2 & trB & HB).
  { vm_compute in HA. injection HA as <- _. eexists _, _. reflexivity. }
  pose proof (client_replies_out_of_order Reference.mathClient
                Reference.ping Reference.ping c1 c2 42%Z 43%Z trA trB
                (Reference.pong 42) (Reference.pong 43)
                HA HB eq_refl eq_refl) as Hrun.
  cbv zeta in Hrun. destruct Hrun as (_ & [H43 H42] & _).
  exists c1, c2, trA, trB.
  split; [exact HA|]. split; [exact HB|]. split; [exact H43|exact H42].
Defined.

(** ** From one client to another *)

Section EndToEnd.
Context `{!RegexpLib, !Client.ServiceImpl}.
Context {MRequest : Marshal Client.Request} {MReply : Marshal Client.Reply}
        {MPublish : Marshal Client.Publish}.
Context `{!Unmarshal Client.Request, !Unmarshal Client.Reply,
          !Unmarshal Client.Publish}.
Context {World : Type}.
Implicit Types c : Client.client World.
Implicit Types w : World.

(** A call from one client to a service of another, the frames passing
    unchanged between them: when the request and the reply decode to what
    was encoded, the client that owns the service answers the request it
    receives with one Reply carrying the request's id, and handling that
    Reply hands the caller the data, or the error, the service returned. *)
Theorem client_rpc_round_trip cA cB (wA wB : World)
    (req : Client.Request) cA1 (id : Z) (tr : list Client.Effect)
    (replyBytes : bytes) (err : option Client.error) :
  let sent := {| Client.Id := Some id;
                 Client.ServiceName := Client.ServiceName req;
                 Client.ServiceIdentification :=
                   Client.ServiceIdentification req;
                 Client.Method := Client.Method req;
                 Client.Data := Client.Data req |} in
  let answer := {| Client.RepId := Some id; Client.RepData := replyBytes;
                   Client.Error :=
                     (λ e, {| Client.ErrType :=
                                Some Client.Reply_Error_Custom;
                              Client.What := Some e |}) <$> err |} in
  Client.sendRequest cA req = Client.Ret (cA1, id, tr) →
  (∀ bs, marshal sent = Some bs → unmarshal bs = Some sent) →
  Client.handleRequest cB sent = Client.Ret (replyBytes, err) →
  (∃ bs, marshal answer = Some bs ∧ unmarshal bs = Some answer) →
  ∃ mReq mRep cA2,
    tr = [Client.EvSendMessage mReq] ∧
    Client.handleMessage cB (Some mReq) wB
      = Client.Ret (cB, wB, [Client.EvSendMessage mRep],
                    Client.Returned None) ∧
    Client.handleMessage cA1 (Some mRep) wA
      = Client.Ret (cA2, wA, [], Client.Returned None) ∧
    Client.awaitReply cA2 id = Some answer.
Proof.
  intros sent answer Hsend Hreq Hhandle (bsRep & Hmarshal & Hunmarshal).
  unfold Client.sendRequest in Hsend.
  destruct (Client.Id req); simpl in Hsend; [|done].
  destruct (marshal _) as [bsReq|] eqn:HbsReq; [|done].
  destruct (Client.requestsInFlight cA !! Client.nextRequestId cA)
    eqn:Hfree; [done|].
  injection Hsend as <- <- <-. fold sent in HbsReq.
  eexists _, _, _. split; [reflexivity|].
  split; [|split].
  - unfold Client.handleMessage, Client.handleRequestReply. simpl.
    rewrite (Hreq _ HbsReq). simpl. fold sent. rewrite Hhandle. simpl.
    fold answer. rewrite Hmarshal. reflexivity.
  - unfold Client.handleMessage. simpl. rewrite Hunmarshal.
    unfold Client.handleReply. simpl.
    rewrite lookup_insert_eq. simpl. rewrite lookup_insert_eq. reflexivity.
  - unfold Client.awaitReply. simpl. rewrite lookup_insert_eq. simpl.
    by rewrite lookup_insert_eq.
Qed.

(** What one client publishes is what the subscribers of another get: when
    the publication decodes to what was encoded, [Publish] sends one
    message, and a client handling it runs its subscribers on the published
    event name and the JSON bytes of the data, sends nothing and stays as it
    is. *)
Theorem client_publish_reaches_handlers {A : Type}
    {JM : Client.JSONMarshal A} c (event : string) (data : A) (tr : list Client.Effect)
    (dataBytes : bytes) c' w :
  Client.Publish_ c event data = inr tr →
  Client.json_Marshal data = Some dataBytes →
  (∀ bs, marshal {| Client.Event := Some event;
                    Client.PubData := dataBytes |} = Some bs →
         unmarshal bs = Some {| Client.Event := Some event;
                                Client.PubData := dataBytes |}) →
  ∃ m, tr = [Client.EvSendMessage m] ∧
       Client.handleMessage c' (Some m) w
         = Client.Ret (c', Client.runSubscribers (Client.subscribers c')
                              event dataBytes w,
                       [], Client.Returned None).
Proof.
  intros Hpub Hjson Hdecode. unfold Client.Publish_ in Hpub.
  rewrite Hjson in Hpub.
  destruct (marshal _) as [bs|] eqn:Hbs; [|done].
  injection Hpub as <-. eexists. split; [reflexivity|].
  unfold Client.handleMessage. simpl. by rewrite (Hdecode bs).
Qed.

End EndToEnd.

Lemma client_rpc_round_trip_witness :
  ∃ cA1 mReq mRep cA2,
    Client.sendRequest (Marshal0 := Reference.encodeRequest)
        Reference.emptyClient Reference.askMath
      = Client.Ret (cA1, 42%Z, [Client.EvSendMessage mReq]) ∧
    Client.handleMessage (Marshal1 := Reference.encodeReply)
        Reference.mathClient (Some mReq) ([] : Reference.World)
      = Client.Ret (Reference.mathClient, [], [Client.EvSendMessage mRep],
                    Client.Returned None) ∧
    Client.handleMessage (Marshal1 := Reference.encodeReply) cA1 (Some mRep)
        ([] : Reference.World)
      = Client.Ret (cA2, [], [], Client.Returned None) ∧
    Client.awaitReply cA2 42
      = Some {| Client.RepId := Some 42%Z; Client.RepData := [];
                Client.Error := None |}.
Proof.
  assert (∃ cA1 tr,
            Client.sendRequest (Marshal0 := Reference.encodeRequest)
                Reference.emptyClient Reference.askMath
              = Client.Ret (cA1, 42%Z, tr)) as (cA1 & tr & Hsend)
    by (eexists _, _; reflexivity).
  pose proof (client_rpc_round_trip
                (MRequest := Reference.encodeRequest)
                (MReply := Reference.encodeReply)
                Reference.emptyClient Reference.mathClient
                ([] : Reference.World) ([] : Reference.World)
                Reference.askMath cA1 42%Z tr [] None) as Hrun.
  cbv zeta in Hrun.
  destruct Hrun as (mReq & mRep & cA2 & -> & HB & HA & Hgot).
  - exact Hsend.
  - intros bs [= <-]. reflexivity.
  - reflexivity.
  - eexists. split; reflexivity.
  - exists cA1, mReq, mRep, cA2. split; [exact Hsend|].
    split; [exact HB|]. split; [exact HA|exact Hgot].
Defined.

Lemma client_publish_reaches_handlers_witness :
  ∃ m,
    Client.Publish_ (Marshal4 := Reference.encodePublish)
        (JSONMarshal0 := Reference.encodeJSON)
        Reference.mathClient "foo.bar" tt
      = inr [Client.EvSendMessage m] ∧
    Client.handleMessage Reference.subscribedClient (Some m)
        ([] : Reference.World)
      = Client.Ret (Reference.subscribedClient,
                    [(1, "foo.bar", []); (3, "foo.bar", [])],
                    [], Client.Returned None).
Proof.
  destruct (client_publish_reaches_handlers
              (MPublish := Reference.encodePublish)
              (JM := Reference.encodeJSON)
              Reference.mathClient "foo.bar" tt _ []
              Reference.subscribedClient ([] : Reference.World)
              eq_refl eq_refl)
    as (m & Hm & Hhandled).
  - intros bs [= <-]. reflexivity.
  - exists m. split; [|exact Hhandled].
    injection Hm as <-. reflexivity.
Defined.
